(** * Verification of [classes_snake.py]

    A shallow embedding of the [Snake] and [SnakeBodyPart] classes of
    [classes_snake.py] and the proofs of their specified properties.

    Python integers are unbounded, so every integer attribute is a [Z].
    The methods of [Snake] mutate [self] and may raise; they are embedded
    in a state-and-exception monad over the record [Snake], in which the
    state reached at the moment an exception is raised is kept (Python
    does not roll back the mutations done before a [raise]). *)

From Stdlib Require Import ZArith String List Lia DecimalString.
From stdpp Require Import base list strings.
Import ListNotations.
Local Open Scope Z_scope.

(** ** Data model *)

(** [class SnakeBodyPart]: the four attributes set by [__init__]. *)
Record SnakeBodyPart : Type := mkSnakeBodyPart {
  ID : Z;
  xpos : Z;
  ypos : Z;
  is_head : bool
}.

(** [class Snake]: the three attributes set by [__init__]. The objects
    held by [snake_body] are created once, one fresh object per index, by
    [__initialise_snake_body]; no method rebinds an element of the list,
    so two indices never alias the same object and a list of records
    updated by index is a faithful store. *)
Record Snake : Type := mkSnake {
  snake_length : Z;
  num_moves : Z;
  snake_body : list SnakeBodyPart
}.

(** Exceptions the code can raise: [IndexError] from a subscript that is
    out of range, and the generic [Exception(msg)] of [move_combo]. *)
Inductive exn : Type :=
| IndexError
| Exception (msg : string).

Inductive result (A : Type) : Type :=
| Ok (a : A)
| Raise (e : exn).
Arguments Ok {A} a.
Arguments Raise {A} e.

(** ** The monad of methods of [Snake] *)

Definition M (A : Type) : Type := Snake -> result A * Snake.

Definition ret {A} (a : A) : M A := fun s => (Ok a, s).

Definition bind {A B} (m : M A) (k : A -> M B) : M B :=
  fun s => match m s with
           | (Ok a, s') => k a s'
           | (Raise e, s') => (Raise e, s')
           end.

Definition raise {A} (e : exn) : M A := fun s => (Raise e, s).

Definition get_self : M Snake := fun s => (Ok s, s).

Declare Scope snake_scope.
Delimit Scope snake_scope with snake.
Notation "x <- m ;; k" := (bind m (fun x => k))
  (at level 100, m at next level, right associativity) : snake_scope.
Notation "m ;;; k" := (bind m (fun _ => k))
  (at level 100, right associativity) : snake_scope.
Local Open Scope snake_scope.

(** [for x in xs: body(x)]: the first exception ends the loop. *)
Fixpoint for_each {A} (xs : list A) (body : A -> M unit) : M unit :=
  match xs with
  | [] => ret tt
  | x :: xs' => body x ;;; for_each xs' body
  end.

(** ** Python built-ins used by the code *)

(** Number of elements of [range(start, stop, step)], as CPython computes
    it ([step] is never [0] in this program). *)
Definition range_len (start stop step : Z) : nat :=
  if 0 <? step
  then Z.to_nat ((stop - start + step - 1) / step)
  else Z.to_nat ((start - stop - step - 1) / (- step)).

Definition py_range (start stop step : Z) : list Z :=
  map (fun k => start + Z.of_nat k * step) (seq 0 (range_len start stop step)).

(** Subscript resolution of a Python list of length [len]: a negative
    index counts from the end, and an index out of range resolves to
    nothing (the subscript raises [IndexError]). *)
Definition resolve_index (len : nat) (i : Z) : option nat :=
  let j := if i <? 0 then i + Z.of_nat len else i in
  if (0 <=? j) && (j <? Z.of_nat len) then Some (Z.to_nat j) else None.

(** [self.snake_body[i]] as an expression. *)
Definition body_part (i : Z) : M SnakeBodyPart :=
  fun s =>
    match resolve_index (length (snake_body s)) i with
    | Some k =>
        match snake_body s !! k with
        | Some p => (Ok p, s)
        | None => (Raise IndexError, s)
        end
    | None => (Raise IndexError, s)
    end.

(** [self.snake_body[i].attr = v], with [upd] the attribute store: the
    subscript is evaluated (and may raise), then the object it denotes is
    mutated in place. *)
Definition set_part (i : Z) (upd : SnakeBodyPart -> SnakeBodyPart) : M unit :=
  fun s =>
    match resolve_index (length (snake_body s)) i with
    | Some k =>
        (Ok tt, mkSnake (snake_length s) (num_moves s)
                        (alter upd k (snake_body s)))
    | None => (Raise IndexError, s)
    end.

Definition with_xpos (v : Z) (p : SnakeBodyPart) : SnakeBodyPart :=
  mkSnakeBodyPart (ID p) v (ypos p) (is_head p).

Definition with_ypos (v : Z) (p : SnakeBodyPart) : SnakeBodyPart :=
  mkSnakeBodyPart (ID p) (xpos p) v (is_head p).

(** ** [SnakeBodyPart.__init__]

    [initial_pos] is a two-element list at both call sites; it is taken
    as a pair. *)
Definition SnakeBodyPart_init (id : Z) (initial_pos : Z * Z) (head : bool)
  : SnakeBodyPart :=
  mkSnakeBodyPart id (fst initial_pos) (snd initial_pos) head.

(** ** [Snake.__initialise_snake_body] *)

Definition append_part (p : SnakeBodyPart) : M unit :=
  fun s => (Ok tt, mkSnake (snake_length s) (num_moves s) (snake_body s ++ [p])).

Definition initialise_snake_body : M unit :=
  (fun s => (Ok tt, mkSnake (snake_length s) (num_moves s) [])) ;;;
  let snake_head := SnakeBodyPart_init 0 (0, 0) true in
  append_part snake_head ;;;
  self <- get_self ;;
  for_each (py_range 1 (snake_length self) 1)
    (fun i => let body_part := SnakeBodyPart_init i (0, - i) false in
              append_part body_part).

(** ** [Snake.__init__]: the constructor [Snake(snake_length)] *)

Definition Snake_init (snake_length : Z) : result unit * Snake :=
  initialise_snake_body (mkSnake snake_length 0 []).

Definition new_Snake (snake_length : Z) : Snake := snd (Snake_init snake_length).

(** ** [Snake.update_body_positions] *)

Definition update_body_positions : M unit :=
  self <- get_self ;;
  for_each (py_range (Z.of_nat (length (snake_body self)) - 1) 0 (-1))
    (fun i =>
       p <- body_part (i - 1) ;;
       set_part i (with_xpos (xpos p)) ;;;
       q <- body_part (i - 1) ;;
       set_part i (with_ypos (ypos q))).

(** ** The four moves *)

Definition incr_num_moves : M unit :=
  fun s => (Ok tt, mkSnake (snake_length s) (num_moves s + 1) (snake_body s)).

(** [self.snake_body[0].xpos += d] and its [ypos] twin: the subscript is
    evaluated once, the attribute read, then written. *)
Definition add_head_xpos (d : Z) : M unit :=
  h <- body_part 0 ;; set_part 0 (with_xpos (xpos h + d)).

Definition add_head_ypos (d : Z) : M unit :=
  h <- body_part 0 ;; set_part 0 (with_ypos (ypos h + d)).

Definition move_right : M unit :=
  update_body_positions ;;; incr_num_moves ;;; add_head_xpos 1.

Definition move_left : M unit :=
  update_body_positions ;;; incr_num_moves ;;; add_head_xpos (-1).

Definition move_up : M unit :=
  update_body_positions ;;; incr_num_moves ;;; add_head_ypos 1.

Definition move_down : M unit :=
  update_body_positions ;;; incr_num_moves ;;; add_head_ypos (-1).

(** [Snake.get_head] *)
Definition get_head : M SnakeBodyPart := body_part 0.

(** ** [Snake.move_combo]

    [plot_snake_position] draws with numpy and matplotlib and writes a
    file; it reads the snake and does not mutate it. It is a parameter
    [plot] of the embedding: given the snake it either returns or raises.
    [tqdm] only wraps the iteration. *)
Section MoveCombo.

Variable plot : Snake -> option exn.

Definition plot_snake_position : M unit :=
  fun s => match plot s with
           | None => (Ok tt, s)
           | Some e => (Raise e, s)
           end.

(** One turn of the loop of [move_combo]. *)
Definition move_combo_step (plot_moves : bool) (move : string) : M unit :=
  (if String.eqb move "right" then move_right
   else if String.eqb move "left" then move_left
   else if String.eqb move "up" then move_up
   else if String.eqb move "down" then move_down
   else raise (Exception ("Invalid move: " ++ move)%string)) ;;;
  (if plot_moves then plot_snake_position else ret tt).

Definition move_combo (move_tuple : list string) (plot_moves : bool) : M unit :=
  for_each move_tuple (move_combo_step plot_moves).

End MoveCombo.

(** ** Vocabulary of the specification *)

(** The four direction tokens, as a closed enumeration. *)
Inductive Direction : Type := Right | Left | Up | Down.

Definition move (d : Direction) : M unit :=
  match d with
  | Right => move_right
  | Left => move_left
  | Up => move_up
  | Down => move_down
  end.

Definition token (d : Direction) : string :=
  match d with
  | Right => "right"
  | Left => "left"
  | Up => "up"
  | Down => "down"
  end.

Definition unit_vector (d : Direction) : Z * Z :=
  match d with
  | Right => (1, 0)
  | Left => (-1, 0)
  | Up => (0, 1)
  | Down => (0, -1)
  end.

Definition valid_token (t : string) : Prop := exists d, t = token d.

Definition valid_tokenb (t : string) : bool :=
  String.eqb t "right" || String.eqb t "left" || String.eqb t "up" || String.eqb t "down".

Definition position (p : SnakeBodyPart) : Z * Z := (xpos p, ypos p).

Definition positions (s : Snake) : list (Z * Z) := map position (snake_body s).

(** The state after a sequence of moves, exceptions dropped. *)
Definition run_moves (ds : list Direction) (s : Snake) : Snake :=
  fold_left (fun st d => snd (move d st)) ds s.

(** ** Pure counterparts used in the proofs *)

(** [seg] after it has taken the position of [pred]. *)
Definition follow (pred seg : SnakeBodyPart) : SnakeBodyPart :=
  mkSnakeBodyPart (ID seg) (xpos pred) (ypos pred) (is_head seg).

Definition translate (d : Direction) (p : SnakeBodyPart) : SnakeBodyPart :=
  mkSnakeBodyPart (ID p) (xpos p + fst (unit_vector d))
                  (ypos p + snd (unit_vector d)) (is_head p).

Definition set_body (b : list SnakeBodyPart) (s : Snake) : Snake :=
  mkSnake (snake_length s) (num_moves s) b.

(** One turn of the loop of [update_body_positions] at index [i]. *)
Definition shift_at (i : nat) (l : list SnakeBodyPart) : list SnakeBodyPart :=
  match l !! Nat.pred i with
  | Some p => alter (follow p) i l
  | None => l
  end.

(** The turns at indices [m], [m-1], ..., [1], in that order. *)
Fixpoint shift_down (m : nat) (l : list SnakeBodyPart) : list SnakeBodyPart :=
  match m with
  | O => l
  | S j => shift_down j (shift_at (S j) l)
  end.

(** The simultaneous assignment of the specification: every segment of
    index [i >= 1] receives the position that its predecessor has in the
    list [old] as it was before the shift; the head keeps its own. *)
Definition simultaneous_shift (old : list SnakeBodyPart) : list SnakeBodyPart :=
  imap (fun i seg =>
          match i with
          | O => seg
          | S j => match old !! j with
                   | Some pred => follow pred seg
                   | None => seg
                   end
          end) old.

(** The body built by the constructor, in closed form. *)
Definition initial_body (n : Z) : list SnakeBodyPart :=
  mkSnakeBodyPart 0 0 0 true ::
  map (fun k => mkSnakeBodyPart (Z.of_nat k) 0 (- Z.of_nat k) false)
      (seq 1 (Z.to_nat (n - 1))).

(** The state that a move leaves on a chain that has a head. *)
Definition after_move (d : Direction) (s : Snake) : Snake :=
  mkSnake (snake_length s) (num_moves s + 1)
          (alter (translate d) O (simultaneous_shift (snake_body s))).

Definition opposite (d : Direction) : Direction :=
  match d with
  | Right => Left
  | Left => Right
  | Up => Down
  | Down => Up
  end.

(** How far [q] is from [p]. *)
Definition displacement (p q : SnakeBodyPart) : Z * Z :=
  (xpos q - xpos p, ypos q - ypos p).

(** The four vectors of length one of the grid. *)
Definition is_unit_vector (v : Z * Z) : bool :=
  Z.abs (fst v) + Z.abs (snd v) =? 1.

(** Head-only displacement, as the specification words it: across the
    move [d] the head, and no other segment, has its coordinates changed
    by a unit vector, and every other segment takes the position that its
    predecessor had before the move. *)
Definition head_only_displacement (d : Direction) (s : Snake) : Prop :=
  (forall (i : nat) (p q : SnakeBodyPart),
      snake_body s !! i = Some p ->
      snake_body (snd (move d s)) !! i = Some q ->
      (is_unit_vector (displacement p q) = true <-> i = O)) /\
  (forall (k : nat) (pred q : SnakeBodyPart),
      snake_body s !! k = Some pred ->
      snake_body (snd (move d s)) !! S k = Some q ->
      position q = position pred).

(** No-op pairs, as the specification words it: a move right then a move
    left, and a move up then a move down, leave the state they started
    from. *)
Definition noop_pairs (s : Snake) : Prop :=
  snd (move_left (snd (move_right s))) = s /\
  snd (move_down (snd (move_up s))) = s.

(** Consecutive segments are one unit apart. *)
Definition adjacent (l : list SnakeBodyPart) : Prop :=
  forall (k : nat) (p q : SnakeBodyPart),
    l !! k = Some p -> l !! S k = Some q ->
    is_unit_vector (displacement q p) = true.

(** How many times the direction [d] occurs in [ds]. *)
Fixpoint count_dir (d : Direction) (ds : list Direction) : Z :=
  match ds with
  | [] => 0
  | x :: ds' =>
      (match d, x with
       | Right, Right | Left, Left | Up, Up | Down, Down => 1
       | _, _ => 0
       end) + count_dir d ds'
  end.

(** ** [convert_moves_to_string] *)

(** A value held by a list of this program: an [int] or a [str]. *)
Inductive pyval : Type :=
| PyInt (n : Z)
| PyStr (s : string).

(** The decimal text of an [int], as an f-string formats it. *)
Definition str_of_int (n : Z) : string := NilZero.string_of_int (Z.to_int n).

(** [enumerate(l)] *)
Definition enumerate {A} (l : list A) : list (Z * A) :=
  imap (fun i x => (Z.of_nat i, x)) l.

(** [l[i] = v]: the subscript is resolved as for a read. *)
Definition list_setitem {A} (l : list A) (i : Z) (v : A) : result (list A) :=
  match resolve_index (length l) i with
  | Some k => Ok (<[k := v]> l)
  | None => Raise IndexError
  end.

(** The loop [for i, move in enumerate(moves)] over the local list
    [str_move]. *)
Fixpoint convert_loop (items : list (Z * Z)) (str_move : list pyval)
  : result (list pyval) :=
  match items with
  | [] => Ok str_move
  | (i, move) :: items' =>
      match (if move =? 0 then list_setitem str_move i (PyStr "right")
             else if move =? 1 then list_setitem str_move i (PyStr "left")
             else if move =? 2 then list_setitem str_move i (PyStr "up")
             else if move =? 3 then list_setitem str_move i (PyStr "down")
             else Raise (Exception ("Invalid move: " ++ str_of_int move)%string))
      with
      | Ok str_move' => convert_loop items' str_move'
      | Raise e => Raise e
      end
  end.

(** [str_move = [0] * len(moves)], the loop, [return str_move]. *)
Definition convert_moves_to_string (moves : list Z) : result (list pyval) :=
  convert_loop (enumerate moves) (replicate (length moves) (PyInt 0)).

(** The integer code of each direction in [convert_moves_to_string]. *)
Definition code (d : Direction) : Z :=
  match d with
  | Right => 0
  | Left => 1
  | Up => 2
  | Down => 3
  end.

(** How [move_combo] sees an element of the list it is given: a [str] is
    itself; an [int] compares unequal to the four tokens and is formatted
    in decimal by the f-string of the exception, exactly as the string of
    its digits is. *)
Definition token_of_pyval (v : pyval) : string :=
  match v with
  | PyStr t => t
  | PyInt n => str_of_int n
  end.

(** ** The grid of [plot_snake_position]

    [plot_grid] is a numpy array of shape (50, 50): a list of rows. A
    numpy subscript is resolved along each axis as a list subscript is
    (negative indices count from the end, out of range raises
    [IndexError]). The cells hold 0, 1 and 2. *)
Definition GRID_SIZE : Z := 50.

Definition np_zeros (rows cols : Z) : list (list Z) :=
  replicate (Z.to_nat rows) (replicate (Z.to_nat cols) 0).

(** [plot_grid[i, j] = v] *)
Definition grid_setitem (plot_grid : list (list Z)) (i j : Z) (v : Z)
  : result (list (list Z)) :=
  match resolve_index (length plot_grid) i with
  | Some r =>
      match plot_grid !! r with
      | Some row =>
          match resolve_index (length row) j with
          | Some c => Ok (<[r := <[c := v]> row]> plot_grid)
          | None => Raise IndexError
          end
      | None => Raise IndexError
      end
  | None => Raise IndexError
  end.

(** The loop [for body_part in reversed(self.snake_body)], on the parts
    already reversed. *)
Fixpoint fill_plot_grid (parts : list SnakeBodyPart) (plot_grid : list (list Z))
  : result (list (list Z)) :=
  match parts with
  | [] => Ok plot_grid
  | body_part :: parts' =>
      let xpos_centred := xpos body_part + GRID_SIZE / 2 in
      let ypos_centred := ypos body_part + GRID_SIZE / 2 in
      match (if is_head body_part
             then grid_setitem plot_grid xpos_centred ypos_centred 2
             else grid_setitem plot_grid xpos_centred ypos_centred 1)
      with
      | Ok plot_grid' => fill_plot_grid parts' plot_grid'
      | Raise e => Raise e
      end
  end.

(** The grid that [plot_snake_position] hands to matplotlib. *)
Definition draw_plot_grid (s : Snake) : result (list (list Z)) :=
  fill_plot_grid (rev (snake_body s)) (np_zeros GRID_SIZE GRID_SIZE).

(** ** The driver: [create_random_moves], [plot_snake_position], [main]

    Two things are outside the program and are parameters here: the
    draws of [random.randint], [randint k a b] being the value of the
    [k]-th call when it is called with the bounds [a] and [b]; and what
    matplotlib and the file system do with a finished grid, [savefig g m]
    standing for [plt.figure], [plt.imshow], [os.mkdir] and
    [plt.savefig] on the grid [g] with [num_moves = m] in the file
    name. *)
Section Driver.

Variable randint : nat -> Z -> Z -> Z.
Variable savefig : list (list Z) -> Z -> option exn.

(** [[random.randint(0, 3) for _ in range(n_moves)]] *)
Definition create_random_moves (n_moves : Z) : list Z :=
  imap (fun k _ => randint k 0 3) (py_range 0 n_moves 1).



End Driver.

(** A segment that the 50 by 50 grid can hold once centred. *)
Definition in_grid (p : SnakeBodyPart) : Prop :=
  -75 <= xpos p <= 24 /\ -75 <= ypos p <= 24.

Definition in_gridb (p : SnakeBodyPart) : bool :=
  (-75 <=? xpos p) && (xpos p <=? 24) && (-75 <=? ypos p) && (ypos p <=? 24).

(** The row, or column, on which the coordinate [c] is drawn: centred,
    and wrapped to the far side below -25. *)
Definition grid_index (c : Z) : nat :=
  Z.to_nat (if c <? -25 then c + 75 else c + 25).

Definition drawn_at (r c : nat) (p : SnakeBodyPart) : bool :=
  Nat.eqb (grid_index (xpos p)) r && Nat.eqb (grid_index (ypos p)) c.

Definition marker (p : SnakeBodyPart) : Z := if is_head p then 2 else 1.

Definition cell (g : list (list Z)) (r c : nat) : option Z :=
  match g !! r with
  | Some row => row !! c
  | None => None
  end.

(** A grid of 50 rows of 50 cells. *)
Definition grid_shape (g : list (list Z)) : Prop :=
  length g = 50%nat /\ Forall (fun row => length row = 50%nat) g.

(** * Proofs *)

(** ** The built-ins *)

Lemma resolve_index_nat (len k : nat) :
  (k < len)%nat -> resolve_index len (Z.of_nat k) = Some k.
Proof.
  intros Hk. unfold resolve_index.
  destruct (Z.ltb_spec (Z.of_nat k) 0) as [Hneg | _]; [lia |].
  destruct (Z.leb_spec 0 (Z.of_nat k)) as [_ | Hneg]; [| lia].
  destruct (Z.ltb_spec (Z.of_nat k) (Z.of_nat len)) as [_ | Hge]; [| lia].
  simpl. f_equal. apply Nat2Z.id.
Qed.

Lemma resolve_index_head (len : nat) :
  (0 < len)%nat -> resolve_index len 0 = Some O.
Proof. intros H. exact (resolve_index_nat len O H). Qed.

Lemma py_range_up (start stop : Z) :
  py_range start stop 1
  = map (fun k => start + Z.of_nat k) (seq 0 (Z.to_nat (stop - start))).
Proof.
  unfold py_range, range_len. simpl (0 <? 1).
  rewrite Z.div_1_r. replace (stop - start + 1 - 1) with (stop - start) by lia.
  apply map_ext. intros k. lia.
Qed.

Lemma py_range_down_len (start : Z) :
  range_len start 0 (-1) = Z.to_nat start.
Proof.
  unfold range_len. simpl (0 <? -1). simpl (- -1).
  rewrite Z.div_1_r. f_equal. lia.
Qed.

Lemma py_range_down_empty (start : Z) :
  start <= 0 -> py_range start 0 (-1) = [].
Proof.
  intros H. unfold py_range. rewrite py_range_down_len.
  replace (Z.to_nat start) with O by lia. reflexivity.
Qed.

Lemma py_range_down_S (m : nat) :
  py_range (Z.of_nat (S m)) 0 (-1)
  = Z.of_nat (S m) :: py_range (Z.of_nat m) 0 (-1).
Proof.
  unfold py_range. rewrite !py_range_down_len, !Nat2Z.id.
  cbn [seq map]. f_equal; try lia.
  rewrite <- seq_shift, map_map. apply map_ext. intros k. lia.
Qed.

(** ** The monad *)

Lemma for_each_app {A} (xs ys : list A) (body : A -> M unit) (s : Snake) :
  for_each (xs ++ ys) body s
  = match for_each xs body s with
    | (Ok _, s') => for_each ys body s'
    | (Raise e, s') => (Raise e, s')
    end.
Proof.
  revert s. induction xs as [| x xs IH]; intros s; simpl; [reflexivity |].
  unfold bind. destruct (body x s) as [[[] | e] s']; [apply IH | reflexivity].
Qed.

(** ** The shift, one turn of the loop *)

Lemma follow_compose (p seg : SnakeBodyPart) :
  with_ypos (ypos p) (with_xpos (xpos p) seg) = follow p seg.
Proof. reflexivity. Qed.

Lemma length_shift_at (i : nat) (l : list SnakeBodyPart) :
  length (shift_at i l) = length l.
Proof.
  unfold shift_at. destruct (l !! Nat.pred i); [apply length_alter | reflexivity].
Qed.

Lemma shift_turn (i : nat) (s : Snake) :
  (1 <= i < length (snake_body s))%nat ->
  (p <- body_part (Z.of_nat i - 1) ;;
   set_part (Z.of_nat i) (with_xpos (xpos p)) ;;;
   q <- body_part (Z.of_nat i - 1) ;;
   set_part (Z.of_nat i) (with_ypos (ypos q))) s
  = (Ok tt, set_body (shift_at i (snake_body s)) s).
Proof.
  intros [Hi Hlen]. destruct i as [| j]; [lia |].
  replace (Z.of_nat (S j) - 1) with (Z.of_nat j) by lia.
  destruct (lookup_lt_is_Some_2 (snake_body s) j) as [pj Hpj]; [lia |].
  unfold bind at 1. unfold body_part at 1.
  rewrite resolve_index_nat by lia. rewrite Hpj.
  unfold bind at 1. unfold set_part at 1.
  rewrite resolve_index_nat by lia. cbn [snake_body snake_length num_moves].
  unfold bind at 1. unfold body_part.
  cbn [snake_body snake_length num_moves].
  rewrite length_alter. rewrite resolve_index_nat by lia.
  rewrite list_lookup_alter_ne by lia. rewrite Hpj.
  unfold set_part. cbn [snake_body snake_length num_moves].
  rewrite length_alter. rewrite resolve_index_nat by lia.
  unfold set_body, shift_at. simpl Nat.pred. rewrite Hpj.
  do 2 f_equal. rewrite list_alter_alter_eq.
  apply list_alter_ext; [| reflexivity]. intros seg _. apply follow_compose.
Qed.

Lemma shift_loop (m : nat) (s : Snake) :
  (m < length (snake_body s))%nat ->
  for_each (py_range (Z.of_nat m) 0 (-1))
    (fun i =>
       p <- body_part (i - 1) ;;
       set_part i (with_xpos (xpos p)) ;;;
       q <- body_part (i - 1) ;;
       set_part i (with_ypos (ypos q))) s
  = (Ok tt, set_body (shift_down m (snake_body s)) s).
Proof.
  revert s. induction m as [| m IH]; intros s Hm.
  - rewrite py_range_down_empty by lia. destruct s; reflexivity.
  - rewrite py_range_down_S. cbn [for_each]. unfold bind at 1.
    rewrite shift_turn by lia.
    rewrite IH by (cbn [set_body snake_body]; rewrite length_shift_at; lia).
    reflexivity.
Qed.

(** ** The loop against the simultaneous assignment *)

Lemma simultaneous_shift_lookup_0 (l : list SnakeBodyPart) :
  simultaneous_shift l !! O = l !! O.
Proof.
  unfold simultaneous_shift. rewrite list_lookup_imap.
  destruct (l !! O); reflexivity.
Qed.

Lemma simultaneous_shift_lookup_S (l : list SnakeBodyPart) (k : nat) :
  simultaneous_shift l !! S k
  = match l !! k with
    | Some p => follow p <$> l !! S k
    | None => None
    end.
Proof.
  unfold simultaneous_shift. rewrite list_lookup_imap.
  destruct (l !! k) as [p |] eqn:Hk; [reflexivity |].
  rewrite (lookup_ge_None_2 l (S k)); [reflexivity |].
  apply lookup_ge_None_1 in Hk. lia.
Qed.

Lemma length_simultaneous_shift (l : list SnakeBodyPart) :
  length (simultaneous_shift l) = length l.
Proof. apply length_imap. Qed.

Lemma shift_at_lookup_ne (i j : nat) (l : list SnakeBodyPart) :
  i <> j -> shift_at i l !! j = l !! j.
Proof.
  intros Hij. unfold shift_at.
  destruct (l !! Nat.pred i); [apply list_lookup_alter_ne; exact Hij | reflexivity].
Qed.

Lemma shift_at_lookup_eq (k : nat) (l : list SnakeBodyPart) :
  shift_at (S k) l !! S k = simultaneous_shift l !! S k.
Proof.
  rewrite simultaneous_shift_lookup_S. unfold shift_at. simpl Nat.pred.
  destruct (l !! k) as [p |] eqn:Hk; [apply list_lookup_alter_eq |].
  apply lookup_ge_None_2. apply lookup_ge_None_1 in Hk. lia.
Qed.

Lemma simultaneous_shift_shift_at (m j : nat) (l : list SnakeBodyPart) :
  (j <= m)%nat ->
  simultaneous_shift (shift_at (S m) l) !! j = simultaneous_shift l !! j.
Proof.
  intros Hj. destruct j as [| k].
  - rewrite !simultaneous_shift_lookup_0. apply shift_at_lookup_ne. lia.
  - rewrite !simultaneous_shift_lookup_S.
    rewrite !shift_at_lookup_ne by lia. reflexivity.
Qed.

(** After the turns at [m], ..., [1] the indices up to [m] hold what the
    simultaneous assignment gives them and the others are untouched. *)
Lemma shift_down_lookup (m j : nat) (l : list SnakeBodyPart) :
  shift_down m l !! j
  = if decide (j <= m)%nat then simultaneous_shift l !! j else l !! j.
Proof.
  revert l. induction m as [| m IH]; intros l; cbn [shift_down].
  - destruct (decide (j <= 0)%nat) as [Hj | Hj]; [| reflexivity].
    replace j with O by lia. symmetry. apply simultaneous_shift_lookup_0.
  - rewrite IH.
    destruct (decide (j <= m)%nat) as [Hj | Hj].
    + rewrite decide_True by lia. apply simultaneous_shift_shift_at, Hj.
    + destruct (decide (j = S m)) as [-> | Hne].
      * rewrite decide_True by lia. apply shift_at_lookup_eq.
      * rewrite decide_False by lia. apply shift_at_lookup_ne. lia.
Qed.

Lemma shift_down_all (l : list SnakeBodyPart) :
  shift_down (Nat.pred (length l)) l = simultaneous_shift l.
Proof.
  apply list_eq. intros j. rewrite shift_down_lookup.
  destruct (decide (j <= Nat.pred (length l))%nat) as [Hj | Hj]; [reflexivity |].
  rewrite !lookup_ge_None_2; [reflexivity | |]; rewrite ?length_simultaneous_shift; lia.
Qed.

(** [update_body_positions] never raises and performs the simultaneous
    assignment. *)
Lemma update_body_positions_run (s : Snake) :
  update_body_positions s
  = (Ok tt, set_body (simultaneous_shift (snake_body s)) s).
Proof.
  destruct s as [len nm body].
  unfold update_body_positions, bind, get_self. cbn [snake_body].
  destruct body as [| h t].
  - rewrite py_range_down_empty by (simpl; lia). reflexivity.
  - replace (Z.of_nat (length (h :: t)) - 1) with (Z.of_nat (length t))
      by (cbn [length]; lia).
    rewrite shift_loop by (cbn [snake_body length]; lia).
    cbn [snake_body]. rewrite <- (shift_down_all (h :: t)). reflexivity.
Qed.

(** ** The moves in closed form *)

Lemma simultaneous_shift_cons (h : SnakeBodyPart) (t : list SnakeBodyPart) :
  exists t', simultaneous_shift (h :: t) = h :: t'.
Proof. unfold simultaneous_shift. cbn [imap]. eexists. reflexivity. Qed.

Lemma translate_x (d : Z) (p : SnakeBodyPart) (dir : Direction) :
  unit_vector dir = (d, 0) ->
  with_xpos (xpos p + d) p = translate dir p.
Proof.
  intros Hv. unfold with_xpos, translate. rewrite Hv. cbn [fst snd].
  f_equal. lia.
Qed.

Lemma translate_y (d : Z) (p : SnakeBodyPart) (dir : Direction) :
  unit_vector dir = (0, d) ->
  with_ypos (ypos p + d) p = translate dir p.
Proof.
  intros Hv. unfold with_ypos, translate. rewrite Hv. cbn [fst snd].
  f_equal. lia.
Qed.

Lemma add_head_xpos_run (d : Z) (dir : Direction) (s : Snake) :
  unit_vector dir = (d, 0) -> snake_body s <> [] ->
  add_head_xpos d s = (Ok tt, set_body (alter (translate dir) O (snake_body s)) s).
Proof.
  intros Hv Hne. destruct s as [len nm [| h t]]; [contradiction |].
  unfold add_head_xpos, bind, body_part, set_part, set_body.
  do 2 (cbn [snake_body snake_length num_moves length lookup list_lookup
                alter list_alter xpos];
        rewrite ?resolve_index_head by lia).
  rewrite <- (translate_x d h dir Hv). reflexivity.
Qed.

Lemma add_head_ypos_run (d : Z) (dir : Direction) (s : Snake) :
  unit_vector dir = (0, d) -> snake_body s <> [] ->
  add_head_ypos d s = (Ok tt, set_body (alter (translate dir) O (snake_body s)) s).
Proof.
  intros Hv Hne. destruct s as [len nm [| h t]]; [contradiction |].
  unfold add_head_ypos, bind, body_part, set_part, set_body.
  do 2 (cbn [snake_body snake_length num_moves length lookup list_lookup
                alter list_alter ypos];
        rewrite ?resolve_index_head by lia).
  rewrite <- (translate_y d h dir Hv). reflexivity.
Qed.

(** On a chain that has a head, a move returns normally. *)
Lemma move_run (d : Direction) (s : Snake) :
  snake_body s <> [] -> move d s = (Ok tt, after_move d s).
Proof.
  intros Hne.
  assert (Hne' : snake_body
                   (mkSnake (snake_length s) (num_moves s + 1)
                            (simultaneous_shift (snake_body s))) <> []).
  { cbn [snake_body]. destruct (snake_body s) as [| h t]; [contradiction |].
    destruct (simultaneous_shift_cons h t) as [t' ->]. discriminate. }
  destruct d; unfold move, move_right, move_left, move_up, move_down;
    unfold bind at 1; rewrite update_body_positions_run;
    unfold bind, incr_num_moves, set_body at 1;
    cbn [snake_body snake_length num_moves].
  - rewrite (add_head_xpos_run 1 Right) by (reflexivity || exact Hne'). reflexivity.
  - rewrite (add_head_xpos_run (-1) Left) by (reflexivity || exact Hne'). reflexivity.
  - rewrite (add_head_ypos_run 1 Up) by (reflexivity || exact Hne'). reflexivity.
  - rewrite (add_head_ypos_run (-1) Down) by (reflexivity || exact Hne'). reflexivity.
Qed.

(** On a chain without any segment the counter is incremented and then
    the subscript [snake_body[0]] raises. *)
Lemma move_run_nil (d : Direction) (s : Snake) :
  snake_body s = [] ->
  move d s = (Raise IndexError, mkSnake (snake_length s) (num_moves s + 1) []).
Proof.
  destruct s as [len nm body]. cbn [snake_body]. intros ->.
  destruct d; reflexivity.
Qed.

Lemma snake_body_after_move (d : Direction) (s : Snake) :
  snake_body (snd (move d s))
  = alter (translate d) O (simultaneous_shift (snake_body s)).
Proof.
  destruct (snake_body s) as [| h t] eqn:Hb.
  - rewrite move_run_nil by exact Hb. reflexivity.
  - rewrite move_run by (rewrite Hb; discriminate).
    cbn [snd after_move snake_body]. rewrite Hb. reflexivity.
Qed.

Lemma num_moves_after_move (d : Direction) (s : Snake) :
  num_moves (snd (move d s)) = num_moves s + 1.
Proof.
  destruct (snake_body s) as [| h t] eqn:Hb.
  - rewrite move_run_nil by exact Hb. reflexivity.
  - rewrite move_run by (rewrite Hb; discriminate). reflexivity.
Qed.

Lemma snake_length_after_move (d : Direction) (s : Snake) :
  snake_length (snd (move d s)) = snake_length s.
Proof.
  destruct (snake_body s) as [| h t] eqn:Hb.
  - rewrite move_run_nil by exact Hb. reflexivity.
  - rewrite move_run by (rewrite Hb; discriminate). reflexivity.
Qed.

Lemma length_after_move (d : Direction) (s : Snake) :
  length (snake_body (snd (move d s))) = length (snake_body s).
Proof.
  rewrite snake_body_after_move, length_alter. apply length_simultaneous_shift.
Qed.

Lemma run_moves_snoc (ds : list Direction) (d : Direction) (s : Snake) :
  run_moves (ds ++ [d]) s = snd (move d (run_moves ds s)).
Proof. unfold run_moves. rewrite fold_left_app. reflexivity. Qed.

Lemma length_run_moves (ds : list Direction) (s : Snake) :
  length (snake_body (run_moves ds s)) = length (snake_body s).
Proof.
  revert s. induction ds as [| d ds IH]; intros s; [reflexivity |].
  cbn [run_moves fold_left]. fold (run_moves ds (snd (move d s))).
  rewrite IH. apply length_after_move.
Qed.

(** ** The constructor in closed form *)

Lemma for_each_append_part {A} (g : A -> SnakeBodyPart) (xs : list A) (s : Snake) :
  for_each xs (fun i => append_part (g i)) s
  = (Ok tt, set_body (snake_body s ++ map g xs) s).
Proof.
  revert s. induction xs as [| x xs IH]; intros s.
  - cbn [for_each map ret]. rewrite app_nil_r. destruct s; reflexivity.
  - cbn [for_each map]. unfold bind, append_part at 1. rewrite IH.
    unfold set_body. cbn [snake_body snake_length num_moves].
    rewrite <- app_assoc. reflexivity.
Qed.

Lemma new_Snake_run (n : Z) :
  Snake_init n = (Ok tt, mkSnake n 0 (initial_body n)).
Proof.
  unfold Snake_init, initialise_snake_body, bind, get_self, append_part at 1.
  cbn [snake_body snake_length num_moves].
  rewrite for_each_append_part. unfold set_body, initial_body.
  cbn [snake_body snake_length num_moves app]. do 3 f_equal.
  rewrite py_range_up, map_map, <- seq_shift, map_map.
  apply map_ext. intros k. unfold SnakeBodyPart_init. cbn [fst snd].
  replace (1 + Z.of_nat k) with (Z.of_nat (S k)) by lia. reflexivity.
Qed.

Lemma new_Snake_eq (n : Z) : new_Snake n = mkSnake n 0 (initial_body n).
Proof. unfold new_Snake. rewrite new_Snake_run. reflexivity. Qed.

Lemma length_initial_body (n : Z) :
  length (initial_body n) = S (Z.to_nat (n - 1)).
Proof.
  unfold initial_body. cbn [length]. rewrite length_map, length_seq. reflexivity.
Qed.

Lemma list_lookup_map {A B} (f : A -> B) (l : list A) (i : nat) :
  map f l !! i = f <$> l !! i.
Proof.
  revert i. induction l as [| a l IH]; intros [| i]; try reflexivity.
  apply IH.
Qed.

Lemma initial_body_lookup_S (n : Z) (k : nat) :
  (k < Z.to_nat (n - 1))%nat ->
  initial_body n !! S k
  = Some (mkSnakeBodyPart (Z.of_nat (S k)) 0 (- Z.of_nat (S k)) false).
Proof.
  intros Hk. unfold initial_body. rewrite lookup_cons.
  rewrite list_lookup_map, lookup_seq_lt by exact Hk. reflexivity.
Qed.

(** A constructed chain keeps a head whatever moves it has made. *)
Lemma reachable_nonempty (n : Z) (ds : list Direction) :
  snake_body (run_moves ds (new_Snake n)) <> [].
Proof.
  intros Hnil. apply (f_equal length) in Hnil.
  rewrite length_run_moves, new_Snake_eq in Hnil.
  cbn [snake_body] in Hnil. rewrite length_initial_body in Hnil. discriminate.
Qed.

(** ** One move, segment by segment *)

Lemma head_after_move (d : Direction) (s : Snake) (h : SnakeBodyPart) :
  snake_body s !! O = Some h ->
  snake_body (snd (move d s)) !! O = Some (translate d h).
Proof.
  intros Hh. rewrite snake_body_after_move, list_lookup_alter_eq.
  rewrite simultaneous_shift_lookup_0, Hh. reflexivity.
Qed.

Lemma trailing_after_move (d : Direction) (s : Snake) (k : nat)
      (pred seg : SnakeBodyPart) :
  snake_body s !! k = Some pred ->
  snake_body s !! S k = Some seg ->
  snake_body (snd (move d s)) !! S k = Some (follow pred seg).
Proof.
  intros Hp Hs. rewrite snake_body_after_move.
  rewrite list_lookup_alter_ne by lia.
  rewrite simultaneous_shift_lookup_S, Hp, Hs. reflexivity.
Qed.

Lemma length_new_Snake (n : Z) :
  1 <= n -> length (snake_body (new_Snake n)) = Z.to_nat n.
Proof.
  intros Hn. rewrite new_Snake_eq. cbn [snake_body].
  rewrite length_initial_body. lia.
Qed.

(** ** Tokens and [move_combo] *)

Lemma valid_tokenb_token (d : Direction) : valid_tokenb (token d) = true.
Proof. destruct d; reflexivity. Qed.

Lemma valid_tokenb_spec (t : string) : valid_tokenb t = true <-> valid_token t.
Proof.
  split.
  - unfold valid_tokenb. intros H.
    repeat (apply orb_prop in H; destruct H as [H | H]);
      apply String.eqb_eq in H; subst t;
      [exists Right | exists Left | exists Up | exists Down]; reflexivity.
  - intros [d ->]. apply valid_tokenb_token.
Qed.

Section MoveComboFacts.

Variable plot : Snake -> option exn.
Variable plot_moves : bool.

Lemma move_combo_step_token (d : Direction) (s : Snake) :
  move_combo_step plot plot_moves (token d) s
  = (move d ;;; if plot_moves then plot_snake_position plot else ret tt) s.
Proof. destruct d; reflexivity. Qed.

(** A token that is none of the four raises before anything is mutated. *)
Lemma move_combo_step_invalid (bad : string) (s : Snake) :
  valid_tokenb bad = false ->
  move_combo_step plot plot_moves bad s
  = (Raise (Exception ("Invalid move: " ++ bad)%string), s).
Proof.
  unfold valid_tokenb. intros H.
  apply orb_false_elim in H as [H Hdown].
  apply orb_false_elim in H as [H Hup].
  apply orb_false_elim in H as [Hright Hleft].
  unfold move_combo_step. rewrite Hright, Hleft, Hup, Hdown. reflexivity.
Qed.

(** The plot hook does not mutate the snake. *)
Lemma snd_move_combo_step_token (d : Direction) (s : Snake) :
  snd (move_combo_step plot plot_moves (token d) s) = snd (move d s).
Proof.
  rewrite move_combo_step_token. unfold bind.
  destruct (move d s) as [[[] | e] s']; [| reflexivity].
  destruct plot_moves; [| reflexivity].
  unfold plot_snake_position. destruct (plot s'); reflexivity.
Qed.

Hypothesis plot_returns : plot_moves = true -> forall st, plot st = None.

Lemma move_combo_step_run (d : Direction) (s : Snake) :
  snake_body s <> [] ->
  move_combo_step plot plot_moves (token d) s = (Ok tt, snd (move d s)).
Proof.
  intros Hne. rewrite move_combo_step_token. unfold bind.
  rewrite move_run by exact Hne. cbn [snd].
  destruct plot_moves; [| reflexivity].
  unfold plot_snake_position. rewrite plot_returns; reflexivity.
Qed.

Lemma move_combo_valid (ds : list Direction) (s : Snake) :
  snake_body s <> [] ->
  move_combo plot (map token ds) plot_moves s = (Ok tt, run_moves ds s).
Proof.
  revert s. induction ds as [| d ds IH]; intros s Hne; [reflexivity |].
  unfold move_combo. cbn [map for_each]. unfold bind.
  rewrite move_combo_step_run by exact Hne.
  apply IH. intros Hnil. apply Hne.
  apply (f_equal length) in Hnil. rewrite length_after_move in Hnil.
  destruct (snake_body s); [reflexivity | discriminate].
Qed.

Lemma move_combo_stops_at_invalid (ds : list Direction) (bad : string)
      (rest : list string) (s : Snake) :
  snake_body s <> [] ->
  valid_tokenb bad = false ->
  move_combo plot (map token ds ++ bad :: rest) plot_moves s
  = (Raise (Exception ("Invalid move: " ++ bad)%string), run_moves ds s).
Proof.
  intros Hne Hbad. unfold move_combo. rewrite for_each_app.
  fold (move_combo plot (map token ds) plot_moves).
  rewrite move_combo_valid by exact Hne.
  cbn [for_each]. unfold bind.
  rewrite move_combo_step_invalid by exact Hbad. reflexivity.
Qed.

End MoveComboFacts.

(** Every token sequence is all valid, or splits at its first invalid
    token. *)
Lemma first_invalid_token (toks : list string) :
  (exists ds, toks = map token ds) \/
  (exists ds bad rest,
      toks = map token ds ++ bad :: rest /\ valid_tokenb bad = false).
Proof.
  induction toks as [| t toks IH]; [left; exists []; reflexivity |].
  destruct (valid_tokenb t) eqn:Ht.
  - apply valid_tokenb_spec in Ht as [d ->].
    destruct IH as [[ds ->] | (ds & bad & rest & -> & Hbad)].
    + left. exists (d :: ds). reflexivity.
    + right. exists (d :: ds), bad, rest. split; [reflexivity | exact Hbad].
  - right. exists [], t, toks. split; [reflexivity | exact Ht].
Qed.

Lemma all_tokens_valid (ds : list Direction) :
  ~ Exists (fun t => valid_tokenb t = false) (map token ds).
Proof.
  intros H. apply Exists_exists in H as (t & Hin & Ht).
  apply list_elem_of_In, in_map_iff in Hin as (d & <- & _).
  rewrite valid_tokenb_token in Ht. discriminate.
Qed.

Lemma num_moves_run_moves (ds : list Direction) (s : Snake) :
  num_moves (run_moves ds s) = num_moves s + Z.of_nat (length ds).
Proof.
  revert s. induction ds as [| d ds IH]; intros s.
  - cbn [run_moves fold_left length]. lia.
  - cbn [run_moves fold_left]. fold (run_moves ds (snd (move d s))).
    rewrite IH, num_moves_after_move. cbn [length]. lia.
Qed.

(** * The specified properties *)

(** C1 (trailing invariant). Take a chain constructed with length
    [n >= 2] that has made any sequence [ds] of moves, and let it make one
    more move [d]. The move returns normally and, for every index [i] in
    [[1, n-1]], the position of [snake_body[i]] after the move is the
    position that [snake_body[i-1]] had immediately before it. *)
Theorem trailing_invariant (n : Z) (ds : list Direction) (d : Direction) (i : Z) :
  2 <= n ->
  1 <= i <= n - 1 ->
  fst (move d (run_moves ds (new_Snake n))) = Ok tt /\
  exists pred seg,
    snake_body (run_moves ds (new_Snake n)) !! Z.to_nat (i - 1) = Some pred /\
    snake_body (snd (move d (run_moves ds (new_Snake n)))) !! Z.to_nat i = Some seg /\
    position seg = position pred.
Proof.
  intros Hn Hi. set (before := run_moves ds (new_Snake n)).
  assert (Hlen : length (snake_body before) = Z.to_nat n).
  { unfold before. rewrite length_run_moves. apply length_new_Snake. lia. }
  split.
  - rewrite move_run by apply reachable_nonempty. reflexivity.
  - destruct (lookup_lt_is_Some_2 (snake_body before) (Z.to_nat (i - 1)))
      as [pred Hpred]; [lia |].
    destruct (lookup_lt_is_Some_2 (snake_body before) (Z.to_nat i))
      as [seg0 Hseg0]; [lia |].
    exists pred, (follow pred seg0). split; [exact Hpred |]. split; [| reflexivity].
    replace (Z.to_nat i) with (S (Z.to_nat (i - 1))) in * by lia.
    apply trailing_after_move; assumption.
Qed.

Lemma trailing_invariant_witness :
  2 <= 3 /\ 1 <= 2 <= 3 - 1 /\
  fst (move Up (run_moves [Right] (new_Snake 3))) = Ok tt /\
  exists pred seg,
    snake_body (run_moves [Right] (new_Snake 3)) !! Z.to_nat (2 - 1) = Some pred /\
    snake_body (snd (move Up (run_moves [Right] (new_Snake 3)))) !! Z.to_nat 2 = Some seg /\
    position seg = position pred.
Proof.
  split; [lia |]. split; [lia |].
  apply (trailing_invariant 3 [Right] Up 2); lia.
Defined.

(** C2 (the descending loop refines the simultaneous assignment). For
    every chain state [update_body_positions] returns normally, and the
    state it leaves is the one in which the body is [simultaneous_shift]
    of the body before the call: every segment of index [i >= 1] has the
    pre-shift position of its predecessor, the head is unchanged, and so
    are the identifiers, the head flags and the other attributes. *)
Theorem update_body_positions_simultaneous (s : Snake) :
  update_body_positions s
  = (Ok tt, mkSnake (snake_length s) (num_moves s)
                    (simultaneous_shift (snake_body s)))
  /\ simultaneous_shift (snake_body s) !! O = snake_body s !! O
  /\ forall (i : nat) (pred seg : SnakeBodyPart),
       snake_body s !! i = Some pred ->
       snake_body s !! S i = Some seg ->
       simultaneous_shift (snake_body s) !! S i
       = Some (mkSnakeBodyPart (ID seg) (xpos pred) (ypos pred) (is_head seg)).
Proof.
  split; [apply update_body_positions_run |].
  split; [apply simultaneous_shift_lookup_0 |].
  intros i pred seg Hp Hs.
  rewrite simultaneous_shift_lookup_S, Hp, Hs. reflexivity.
Qed.

(** C3 (scenario). A freshly constructed chain of length 3 has positions
    [(0,0), (0,-1), (0,-2)] and [num_moves = 0]; [move_right] leaves
    [(1,0), (0,0), (0,-1)] and [num_moves = 1]; [move_up] then leaves
    [(1,1), (1,0), (0,0)] and [num_moves = 2]. The same holds through
    [move_combo] with the tokens ["right"] and ["up"]. *)
Theorem scenario_right_up :
  positions (new_Snake 3) = [(0, 0); (0, -1); (0, -2)] /\
  num_moves (new_Snake 3) = 0 /\
  fst (move_right (new_Snake 3)) = Ok tt /\
  positions (snd (move_right (new_Snake 3))) = [(1, 0); (0, 0); (0, -1)] /\
  num_moves (snd (move_right (new_Snake 3))) = 1 /\
  fst (move_up (snd (move_right (new_Snake 3)))) = Ok tt /\
  positions (snd (move_up (snd (move_right (new_Snake 3)))))
  = [(1, 1); (1, 0); (0, 0)] /\
  num_moves (snd (move_up (snd (move_right (new_Snake 3))))) = 2 /\
  (forall plot,
      move_combo plot ["right"%string] false (new_Snake 3)
      = move_right (new_Snake 3) /\
      move_combo plot ["right"%string; "up"%string] false (new_Snake 3)
      = move_up (snd (move_right (new_Snake 3)))).
Proof.
  repeat split; vm_compute; reflexivity.
Qed.

(** C8 (initial layout). For every [n >= 1] the constructor returns
    normally with exactly [n] segments: index 0 is the head, with [ID] 0,
    position (0,0) and [is_head] true; every index [i] in [[1, n-1]] has
    [ID] [i], position [(0, -i)] and [is_head] false; [num_moves] is 0. *)
Theorem initial_layout (n : Z) :
  1 <= n ->
  fst (Snake_init n) = Ok tt /\
  Z.of_nat (length (snake_body (new_Snake n))) = n /\
  snake_body (new_Snake n) !! O = Some (mkSnakeBodyPart 0 0 0 true) /\
  (forall i : Z, 1 <= i <= n - 1 ->
     snake_body (new_Snake n) !! Z.to_nat i
     = Some (mkSnakeBodyPart i 0 (- i) false)) /\
  num_moves (new_Snake n) = 0.
Proof.
  intros Hn. rewrite new_Snake_run, new_Snake_eq. cbn [fst snake_body num_moves].
  split; [reflexivity |]. split; [rewrite length_initial_body; lia |].
  split; [reflexivity |]. split; [| reflexivity].
  intros i Hi. replace (Z.to_nat i) with (S (Z.to_nat (i - 1))) by lia.
  rewrite initial_body_lookup_S by lia.
  replace (Z.of_nat (S (Z.to_nat (i - 1)))) with i by lia. reflexivity.
Qed.

Lemma initial_layout_witness :
  1 <= 4 /\
  fst (Snake_init 4) = Ok tt /\
  Z.of_nat (length (snake_body (new_Snake 4))) = 4 /\
  snake_body (new_Snake 4) !! O = Some (mkSnakeBodyPart 0 0 0 true) /\
  (forall i : Z, 1 <= i <= 4 - 1 ->
     snake_body (new_Snake 4) !! Z.to_nat i
     = Some (mkSnakeBodyPart i 0 (- i) false)) /\
  num_moves (new_Snake 4) = 0.
Proof.
  split; [lia |]. apply (initial_layout 4). lia.
Defined.

(** C4 (invalid tokens in [move_combo]). On a chain that has a head, with
    plotting off or a plot hook that returns, [move_combo] raises the
    exception of the invalid move if and only if the sequence holds a
    token outside right, left, up and down. A sequence of valid tokens
    applies all its moves. A sequence with an invalid token stops at the
    first one: the exception names that token and the snake is in the
    state reached by the valid tokens before it, no later token being
    applied. On a fresh chain the single token "diagonal" raises and
    leaves the chain as constructed, with [num_moves = 0]. *)
Theorem move_combo_invalid_move_error
        (plot : Snake -> option exn) (plot_moves : bool)
        (s : Snake) (toks : list string) :
  snake_body s <> [] ->
  (plot_moves = true -> forall st, plot st = None) ->
  ((exists msg, fst (move_combo plot toks plot_moves s) = Raise (Exception msg))
   <-> Exists (fun t => ~ valid_token t) toks) /\
  (forall ds, toks = map token ds ->
     move_combo plot toks plot_moves s = (Ok tt, run_moves ds s)) /\
  (forall ds bad rest,
     toks = map token ds ++ bad :: rest -> ~ valid_token bad ->
     move_combo plot toks plot_moves s
     = (Raise (Exception ("Invalid move: " ++ bad)%string), run_moves ds s)) /\
  (forall n,
     move_combo plot ["diagonal"%string] plot_moves (new_Snake n)
     = (Raise (Exception "Invalid move: diagonal"), new_Snake n) /\
     num_moves (new_Snake n) = 0).
Proof.
  intros Hne Hplot.
  assert (Hnot : forall t, ~ valid_token t <-> valid_tokenb t = false).
  { intros t. rewrite <- valid_tokenb_spec. destruct (valid_tokenb t); split;
      congruence. }
  split; [| split; [| split]].
  - destruct (first_invalid_token toks)
      as [[ds ->] | (ds & bad & rest & -> & Hbad)].
    + rewrite move_combo_valid by assumption. split.
      * intros [msg Hmsg]. discriminate.
      * intros H. exfalso. apply (all_tokens_valid ds).
        eapply Exists_impl; [exact H |]. intros t. apply Hnot.
    + rewrite move_combo_stops_at_invalid by assumption. split.
      * intros _. apply Exists_app. right. constructor. apply Hnot, Hbad.
      * intros _. eexists. reflexivity.
  - intros ds ->. apply move_combo_valid; assumption.
  - intros ds bad rest -> Hbad. apply move_combo_stops_at_invalid; try assumption.
    apply Hnot, Hbad.
  - intros n. split; [| rewrite new_Snake_eq; reflexivity].
    apply (move_combo_stops_at_invalid plot plot_moves Hplot [] "diagonal" []).
    + apply (reachable_nonempty n []).
    + reflexivity.
Qed.

Lemma move_combo_invalid_move_error_witness :
  ((exists msg,
       fst (move_combo (fun _ => None)
                       ["right"%string; "diagonal"%string; "up"%string]
                       true (new_Snake 3))
       = Raise (Exception msg))
   <-> Exists (fun t => ~ valid_token t)
              ["right"%string; "diagonal"%string; "up"%string]) /\
  (forall ds,
     ["right"%string; "diagonal"%string; "up"%string] = map token ds ->
     move_combo (fun _ => None)
                ["right"%string; "diagonal"%string; "up"%string]
                true (new_Snake 3)
     = (Ok tt, run_moves ds (new_Snake 3))) /\
  (forall ds bad rest,
     ["right"%string; "diagonal"%string; "up"%string]
     = map token ds ++ bad :: rest -> ~ valid_token bad ->
     move_combo (fun _ => None)
                ["right"%string; "diagonal"%string; "up"%string]
                true (new_Snake 3)
     = (Raise (Exception ("Invalid move: " ++ bad)%string),
        run_moves ds (new_Snake 3))) /\
  (forall n,
     move_combo (fun _ => None) ["diagonal"%string] true (new_Snake n)
     = (Raise (Exception "Invalid move: diagonal"), new_Snake n) /\
     num_moves (new_Snake n) = 0).
Proof.
  apply (move_combo_invalid_move_error
           (fun _ => None) true (new_Snake 3)
           ["right"%string; "diagonal"%string; "up"%string]).
  - vm_compute. discriminate.
  - intros _ st. reflexivity.
Defined.

(** C7 (move counter). [num_moves] is 0 after construction; every move,
    whatever its direction, leaves [num_moves] greater by exactly 1, also
    when it is applied through a token of [move_combo]; a token that is
    none of the four raises and leaves the snake, hence [num_moves], as it
    was. *)
Theorem move_counter
        (plot : Snake -> option exn) (plot_moves : bool)
        (n : Z) (s : Snake) (d : Direction) (bad : string) :
  ~ valid_token bad ->
  num_moves (new_Snake n) = 0 /\
  num_moves (snd (move d s)) = num_moves s + 1 /\
  num_moves (snd (move_combo_step plot plot_moves (token d) s)) = num_moves s + 1 /\
  move_combo_step plot plot_moves bad s
  = (Raise (Exception ("Invalid move: " ++ bad)%string), s) /\
  num_moves (snd (move_combo_step plot plot_moves bad s)) = num_moves s.
Proof.
  intros Hbad.
  assert (Hb : valid_tokenb bad = false).
  { destruct (valid_tokenb bad) eqn:E; [| reflexivity].
    exfalso. apply Hbad, valid_tokenb_spec, E. }
  split; [rewrite new_Snake_eq; reflexivity |].
  split; [apply num_moves_after_move |].
  split; [rewrite snd_move_combo_step_token; apply num_moves_after_move |].
  rewrite move_combo_step_invalid by exact Hb. split; reflexivity.
Qed.

Lemma move_counter_witness :
  num_moves (new_Snake 3) = 0 /\
  num_moves (snd (move Left (new_Snake 3))) = num_moves (new_Snake 3) + 1 /\
  num_moves (snd (move_combo_step (fun _ => None) false (token Left) (new_Snake 3)))
  = num_moves (new_Snake 3) + 1 /\
  move_combo_step (fun _ => None) false "diagonal" (new_Snake 3)
  = (Raise (Exception ("Invalid move: " ++ "diagonal")%string), new_Snake 3) /\
  num_moves (snd (move_combo_step (fun _ => None) false "diagonal" (new_Snake 3)))
  = num_moves (new_Snake 3).
Proof.
  apply (move_counter (fun _ => None) false 3 (new_Snake 3) Left "diagonal").
  intros [d Hd]. destruct d; discriminate Hd.
Defined.

(** ** Attributes that a move does not write *)

Lemma map_simultaneous_shift {B} (g : SnakeBodyPart -> B) (l : list SnakeBodyPart) :
  (forall p seg, g (follow p seg) = g seg) ->
  map g (simultaneous_shift l) = map g l.
Proof.
  intros Hg. apply list_eq. intros i. rewrite !list_lookup_map.
  destruct i as [| k].
  - rewrite simultaneous_shift_lookup_0. reflexivity.
  - rewrite simultaneous_shift_lookup_S.
    destruct (l !! k) as [p |] eqn:Hk.
    + destruct (l !! S k) as [seg |]; [| reflexivity].
      cbn [fmap option_fmap option_map]. rewrite Hg. reflexivity.
    + rewrite (lookup_ge_None_2 l (S k)); [reflexivity |].
      apply lookup_ge_None_1 in Hk. lia.
Qed.

Lemma map_alter_head {B} (g : SnakeBodyPart -> B)
      (upd : SnakeBodyPart -> SnakeBodyPart) (l : list SnakeBodyPart) :
  (forall p, g (upd p) = g p) ->
  map g (alter upd O l) = map g l.
Proof.
  intros Hg. destruct l as [| h t]; [reflexivity |].
  cbn [map]. change (alter upd O (h :: t)) with (upd h :: t).
  cbn [map]. rewrite Hg. reflexivity.
Qed.

Lemma map_after_move {B} (g : SnakeBodyPart -> B) (d : Direction) (s : Snake) :
  (forall p seg, g (follow p seg) = g seg) ->
  (forall p, g (translate d p) = g p) ->
  map g (snake_body (snd (move d s))) = map g (snake_body s).
Proof.
  intros Hf Ht. rewrite snake_body_after_move.
  rewrite map_alter_head by exact Ht.
  apply map_simultaneous_shift, Hf.
Qed.

Lemma simultaneous_shift_singleton (h : SnakeBodyPart) :
  simultaneous_shift [h] = [h].
Proof. reflexivity. Qed.

(** C9 (degenerate lengths). For every requested length [n <= 1], zero
    and negative values included, the constructor returns normally with
    exactly one segment, the head with [ID] 0 at (0,0). After any moves
    [ds] the chain still has exactly one segment [h]; on it
    [update_body_positions] changes nothing, and every move [d] returns
    normally, translates the head by the unit vector of [d] and leaves
    [num_moves] greater by 1. *)
Theorem degenerate_length (n : Z) (ds : list Direction) (d : Direction) :
  n <= 1 ->
  fst (Snake_init n) = Ok tt /\
  snake_body (new_Snake n) = [mkSnakeBodyPart 0 0 0 true] /\
  exists h,
    snake_body (run_moves ds (new_Snake n)) = [h] /\
    update_body_positions (run_moves ds (new_Snake n))
    = (Ok tt, run_moves ds (new_Snake n)) /\
    move d (run_moves ds (new_Snake n))
    = (Ok tt,
       mkSnake (snake_length (run_moves ds (new_Snake n)))
               (num_moves (run_moves ds (new_Snake n)) + 1)
               [mkSnakeBodyPart (ID h)
                                (xpos h + fst (unit_vector d))
                                (ypos h + snd (unit_vector d))
                                (is_head h)]).
Proof.
  intros Hn.
  assert (Hinit : initial_body n = [mkSnakeBodyPart 0 0 0 true]).
  { unfold initial_body. replace (Z.to_nat (n - 1)) with O by lia. reflexivity. }
  split; [rewrite new_Snake_run; reflexivity |].
  split; [rewrite new_Snake_eq; exact Hinit |].
  set (s := run_moves ds (new_Snake n)).
  assert (Hlen : length (snake_body s) = 1%nat).
  { unfold s. rewrite length_run_moves, new_Snake_eq. cbn [snake_body].
    rewrite Hinit. reflexivity. }
  destruct (snake_body s) as [| h [| h' t]] eqn:Hb; try discriminate Hlen.
  exists h. split; [reflexivity |]. split.
  - rewrite update_body_positions_run, Hb, simultaneous_shift_singleton.
    unfold set_body. rewrite <- Hb. destruct s; reflexivity.
  - rewrite move_run by (rewrite Hb; discriminate).
    unfold after_move. rewrite Hb, simultaneous_shift_singleton. reflexivity.
Qed.

Lemma degenerate_length_witness :
  -2 <= 1 /\
  fst (Snake_init (-2)) = Ok tt /\
  snake_body (new_Snake (-2)) = [mkSnakeBodyPart 0 0 0 true] /\
  exists h,
    snake_body (run_moves [Up; Left] (new_Snake (-2))) = [h] /\
    update_body_positions (run_moves [Up; Left] (new_Snake (-2)))
    = (Ok tt, run_moves [Up; Left] (new_Snake (-2))) /\
    move Down (run_moves [Up; Left] (new_Snake (-2)))
    = (Ok tt,
       mkSnake (snake_length (run_moves [Up; Left] (new_Snake (-2))))
               (num_moves (run_moves [Up; Left] (new_Snake (-2))) + 1)
               [mkSnakeBodyPart (ID h)
                                (xpos h + fst (unit_vector Down))
                                (ypos h + snd (unit_vector Down))
                                (is_head h)]).
Proof.
  split; [lia |]. apply (degenerate_length (-2) [Up; Left] Down). lia.
Defined.

(** C10 (frame). Every move, on every chain state, leaves unchanged the
    number of segments, the stored [snake_length] and, segment by
    segment, the [ID] and the [is_head] flag. *)
Theorem move_frame (d : Direction) (s : Snake) :
  length (snake_body (snd (move d s))) = length (snake_body s) /\
  snake_length (snd (move d s)) = snake_length s /\
  map ID (snake_body (snd (move d s))) = map ID (snake_body s) /\
  map is_head (snake_body (snd (move d s))) = map is_head (snake_body s).
Proof.
  split; [apply length_after_move |].
  split; [apply snake_length_after_move |].
  split; apply map_after_move; reflexivity.
Qed.

(** ** Displacements *)

Lemma displacement_translate (d : Direction) (h : SnakeBodyPart) :
  displacement h (translate d h) = unit_vector d.
Proof.
  unfold displacement, translate. cbn [xpos ypos].
  destruct d; cbn [unit_vector fst snd]; f_equal; lia.
Qed.

Lemma is_unit_vector_unit_vector (d : Direction) :
  is_unit_vector (unit_vector d) = true.
Proof. destruct d; reflexivity. Qed.

Lemma translate_opposite (d : Direction) (h : SnakeBodyPart) :
  translate (opposite d) (translate d h) = h.
Proof.
  destruct h as [id x y hd]. unfold translate. cbn [ID xpos ypos is_head].
  destruct d; cbn [opposite unit_vector fst snd]; f_equal; lia.
Qed.

Lemma adjacent_initial_body (n : Z) : adjacent (initial_body n).
Proof.
  intros k p q Hp Hq.
  assert (Hk : (k < Z.to_nat (n - 1))%nat).
  { apply lookup_lt_Some in Hq. rewrite length_initial_body in Hq. lia. }
  rewrite initial_body_lookup_S in Hq by exact Hk.
  injection Hq as <-. destruct k as [| j].
  - injection Hp as <-. reflexivity.
  - rewrite initial_body_lookup_S in Hp by lia. injection Hp as <-.
    unfold is_unit_vector, displacement. cbn [xpos ypos fst snd].
    apply Z.eqb_eq. lia.
Qed.

Lemma adjacent_after_move (d : Direction) (s : Snake) :
  adjacent (snake_body s) -> adjacent (snake_body (snd (move d s))).
Proof.
  intros Hadj k p' q' Hp' Hq'.
  assert (Hlen : (S k < length (snake_body s))%nat).
  { apply lookup_lt_Some in Hq'. rewrite length_after_move in Hq'. exact Hq'. }
  destruct (lookup_lt_is_Some_2 (snake_body s) k) as [a Ha]; [lia |].
  destruct (lookup_lt_is_Some_2 (snake_body s) (S k)) as [b Hb]; [lia |].
  rewrite (trailing_after_move d s k a b Ha Hb) in Hq'. injection Hq' as <-.
  destruct k as [| j].
  - rewrite (head_after_move d s a Ha) in Hp'. injection Hp' as <-.
    change (displacement (follow a b) (translate d a))
      with (displacement a (translate d a)).
    rewrite displacement_translate. apply is_unit_vector_unit_vector.
  - destruct (lookup_lt_is_Some_2 (snake_body s) j) as [c Hc]; [lia |].
    rewrite (trailing_after_move d s j c a Hc Ha) in Hp'. injection Hp' as <-.
    change (displacement (follow a b) (follow c a)) with (displacement a c).
    exact (Hadj j c a Hc Ha).
Qed.

Lemma adjacent_reachable (n : Z) (ds : list Direction) :
  adjacent (snake_body (run_moves ds (new_Snake n))).
Proof.
  induction ds as [| d ds IH] using rev_ind.
  - rewrite new_Snake_eq. apply adjacent_initial_body.
  - rewrite run_moves_snoc. apply adjacent_after_move, IH.
Qed.

(** In a chain reached from the constructor every segment, not the head
    alone, is displaced by a unit vector at every move. *)
Lemma reachable_all_unit_displaced (n : Z) (ds : list Direction) (d : Direction)
      (i : nat) (p q : SnakeBodyPart) :
  snake_body (run_moves ds (new_Snake n)) !! i = Some p ->
  snake_body (snd (move d (run_moves ds (new_Snake n)))) !! i = Some q ->
  is_unit_vector (displacement p q) = true.
Proof.
  intros Hp Hq. destruct i as [| k].
  - rewrite (head_after_move d _ p Hp) in Hq. injection Hq as <-.
    rewrite displacement_translate. apply is_unit_vector_unit_vector.
  - destruct (lookup_lt_is_Some_2 (snake_body (run_moves ds (new_Snake n))) k)
      as [a Ha]; [apply lookup_lt_Some in Hp; lia |].
    rewrite (trailing_after_move d _ k a p Ha Hp) in Hq. injection Hq as <-.
    change (displacement p (follow a p)) with (displacement p a).
    exact (adjacent_reachable n ds k a p Ha Hp).
Qed.

(** C5, as stated, fails: from the initial layout of a chain of length 2
    a move right displaces the head by (1,0) and segment 1, which goes
    from (0,-1) to (0,0), by the unit vector (0,1) as well. *)
Lemma head_only_displacement_counterexample :
  ~ head_only_displacement Right (new_Snake 2).
Proof.
  intros [Honly _].
  specialize (Honly 1%nat (mkSnakeBodyPart 1 0 (-1) false)
                    (mkSnakeBodyPart 1 0 0 false) eq_refl eq_refl).
  destruct Honly as [Honly _]. specialize (Honly eq_refl). discriminate Honly.
Qed.

(** C5 (head displacement, amended). In every chain with at least two
    segments every move returns normally, changes the coordinates of the
    head by the unit vector of the move, and changes the coordinates of
    every other segment to those its predecessor had before the move. *)
Theorem head_displacement (d : Direction) (s : Snake) :
  (2 <= length (snake_body s))%nat ->
  fst (move d s) = Ok tt /\
  (exists h h',
      snake_body s !! O = Some h /\
      snake_body (snd (move d s)) !! O = Some h' /\
      displacement h h' = unit_vector d) /\
  (forall i : nat,
      (1 <= i < length (snake_body s))%nat ->
      exists pred seg',
        snake_body s !! (i - 1)%nat = Some pred /\
        snake_body (snd (move d s)) !! i = Some seg' /\
        position seg' = position pred).
Proof.
  intros Hlen.
  destruct (lookup_lt_is_Some_2 (snake_body s) O) as [h Hh]; [lia |].
  split; [| split].
  - rewrite move_run; [reflexivity |].
    intros Hnil. rewrite Hnil in Hh. discriminate Hh.
  - exists h, (translate d h). split; [exact Hh |].
    split; [apply head_after_move, Hh | apply displacement_translate].
  - intros i Hi. destruct i as [| k]; [lia |].
    replace (S k - 1)%nat with k by lia.
    destruct (lookup_lt_is_Some_2 (snake_body s) k) as [a Ha]; [lia |].
    destruct (lookup_lt_is_Some_2 (snake_body s) (S k)) as [b Hb]; [lia |].
    exists a, (follow a b). split; [exact Ha |].
    split; [apply trailing_after_move; assumption | reflexivity].
Qed.

Lemma head_displacement_witness :
  fst (move Up (new_Snake 3)) = Ok tt /\
  (exists h h',
      snake_body (new_Snake 3) !! O = Some h /\
      snake_body (snd (move Up (new_Snake 3))) !! O = Some h' /\
      displacement h h' = unit_vector Up) /\
  (forall i : nat,
      (1 <= i < length (snake_body (new_Snake 3)))%nat ->
      exists pred seg',
        snake_body (new_Snake 3) !! (i - 1)%nat = Some pred /\
        snake_body (snd (move Up (new_Snake 3))) !! i = Some seg' /\
        position seg' = position pred).
Proof.
  apply (head_displacement Up (new_Snake 3)). vm_compute. lia.
Defined.

(** C6, as stated, fails: on a fresh chain of length 3 a move right then
    a move left leaves the positions [(0,0), (1,0), (0,0)] and
    [num_moves = 2], not the initial [(0,0), (0,-1), (0,-2)] and 0; the
    pair up, down fails in the same way. *)
Lemma noop_pairs_counterexample :
  positions (new_Snake 3) = [(0, 0); (0, -1); (0, -2)] /\
  num_moves (new_Snake 3) = 0 /\
  positions (snd (move_left (snd (move_right (new_Snake 3)))))
  = [(0, 0); (1, 0); (0, 0)] /\
  num_moves (snd (move_left (snd (move_right (new_Snake 3))))) = 2 /\
  positions (snd (move_down (snd (move_up (new_Snake 3)))))
  = [(0, 0); (0, 1); (0, 0)] /\
  snd (move_left (snd (move_right (new_Snake 3)))) <> new_Snake 3 /\
  snd (move_down (snd (move_up (new_Snake 3)))) <> new_Snake 3 /\
  ~ noop_pairs (new_Snake 3).
Proof.
  repeat split; try (vm_compute; reflexivity); try (vm_compute; discriminate).
  intros [Hrl _]. vm_compute in Hrl. discriminate Hrl.
Qed.

(** C6 (no-op pairs, amended). On every chain state that has a head [h],
    a move [d] followed by the opposite move (right then left, up then
    down) both return normally and put the head back where it was, with
    its attributes; [num_moves] is greater by 2; segment 1 is left on the
    position the head had between the two moves, and every segment of
    index [i >= 2] on the position that segment [i-2] had before the
    pair. *)
Theorem noop_pair_restores_head (d : Direction) (s : Snake) (h : SnakeBodyPart) :
  snake_body s !! O = Some h ->
  fst (move d s) = Ok tt /\
  fst (move (opposite d) (snd (move d s))) = Ok tt /\
  snake_body (snd (move (opposite d) (snd (move d s)))) !! O = Some h /\
  num_moves (snd (move (opposite d) (snd (move d s)))) = num_moves s + 2 /\
  (forall seg : SnakeBodyPart,
      snake_body s !! 1%nat = Some seg ->
      snake_body (snd (move (opposite d) (snd (move d s)))) !! 1%nat
      = Some (mkSnakeBodyPart (ID seg)
                              (xpos h + fst (unit_vector d))
                              (ypos h + snd (unit_vector d))
                              (is_head seg))) /\
  (forall (k : nat) (p seg : SnakeBodyPart),
      snake_body s !! k = Some p ->
      snake_body s !! S (S k) = Some seg ->
      snake_body (snd (move (opposite d) (snd (move d s)))) !! S (S k)
      = Some (mkSnakeBodyPart (ID seg) (xpos p) (ypos p) (is_head seg))).
Proof.
  intros Hh.
  assert (Hne : snake_body s <> []).
  { intros Hnil. rewrite Hnil in Hh. discriminate Hh. }
  pose proof (head_after_move d s h Hh) as Hh1.
  assert (Hne1 : snake_body (snd (move d s)) <> []).
  { intros Hnil. rewrite Hnil in Hh1. discriminate Hh1. }
  split; [rewrite move_run by exact Hne; reflexivity |].
  split; [rewrite (move_run (opposite d)) by exact Hne1; reflexivity |].
  split; [| split; [| split]].
  - rewrite (head_after_move (opposite d) _ _ Hh1), translate_opposite.
    reflexivity.
  - rewrite !num_moves_after_move. lia.
  - intros seg Hseg.
    pose proof (trailing_after_move d s O h seg Hh Hseg) as Hseg1.
    rewrite (trailing_after_move (opposite d) _ O _ _ Hh1 Hseg1). reflexivity.
  - intros k p seg Hp Hseg.
    destruct (lookup_lt_is_Some_2 (snake_body s) (S k)) as [q Hq];
      [apply lookup_lt_Some in Hseg; lia |].
    pose proof (trailing_after_move d s k p q Hp Hq) as Hq1.
    pose proof (trailing_after_move d s (S k) q seg Hq Hseg) as Hseg1.
    rewrite (trailing_after_move (opposite d) _ (S k) _ _ Hq1 Hseg1).
    reflexivity.
Qed.

Lemma noop_pair_restores_head_witness :
  fst (move Right (new_Snake 3)) = Ok tt /\
  fst (move (opposite Right) (snd (move Right (new_Snake 3)))) = Ok tt /\
  snake_body (snd (move (opposite Right) (snd (move Right (new_Snake 3))))) !! O
  = Some (mkSnakeBodyPart 0 0 0 true) /\
  num_moves (snd (move (opposite Right) (snd (move Right (new_Snake 3)))))
  = num_moves (new_Snake 3) + 2 /\
  (forall seg : SnakeBodyPart,
      snake_body (new_Snake 3) !! 1%nat = Some seg ->
      snake_body (snd (move (opposite Right) (snd (move Right (new_Snake 3)))))
        !! 1%nat
      = Some (mkSnakeBodyPart (ID seg)
                              (xpos (mkSnakeBodyPart 0 0 0 true)
                               + fst (unit_vector Right))
                              (ypos (mkSnakeBodyPart 0 0 0 true)
                               + snd (unit_vector Right))
                              (is_head seg))) /\
  (forall (k : nat) (p seg : SnakeBodyPart),
      snake_body (new_Snake 3) !! k = Some p ->
      snake_body (new_Snake 3) !! S (S k) = Some seg ->
      snake_body (snd (move (opposite Right) (snd (move Right (new_Snake 3)))))
        !! S (S k)
      = Some (mkSnakeBodyPart (ID seg) (xpos p) (ypos p) (is_head seg))).
Proof.
  apply (noop_pair_restores_head Right (new_Snake 3) (mkSnakeBodyPart 0 0 0 true)).
  reflexivity.
Defined.

(** * Further properties of the code *)

(** ** Identity of the segments *)

Lemma map_run_moves {B} (g : SnakeBodyPart -> B) (ds : list Direction) (s : Snake) :
  (forall p seg, g (follow p seg) = g seg) ->
  (forall d p, g (translate d p) = g p) ->
  map g (snake_body (run_moves ds s)) = map g (snake_body s).
Proof.
  intros Hf Ht. revert s. induction ds as [| d ds IH]; intros s; [reflexivity |].
  cbn [run_moves fold_left]. fold (run_moves ds (snd (move d s))).
  rewrite IH. apply map_after_move; [exact Hf | apply Ht].
Qed.

Lemma lookup_of_map {B} (g : SnakeBodyPart -> B) (l l' : list SnakeBodyPart)
      (i : nat) (seg seg' : SnakeBodyPart) :
  map g l = map g l' -> l !! i = Some seg -> l' !! i = Some seg' -> g seg = g seg'.
Proof.
  intros Hmap Hl Hl'. apply (f_equal (fun m => m !! i)) in Hmap.
  rewrite !list_lookup_map, Hl, Hl' in Hmap. injection Hmap as Hg. exact Hg.
Qed.

Lemma get_head_run (s : Snake) (h : SnakeBodyPart) :
  snake_body s !! O = Some h -> get_head s = (Ok h, s).
Proof.
  intros Hh. unfold get_head, body_part.
  rewrite resolve_index_head by (apply lookup_lt_Some in Hh; exact Hh).
  rewrite Hh. reflexivity.
Qed.

(** On a chain built by the constructor the segment at index [i] keeps
    the [ID] [i] and only the segment at index 0 is flagged as head. *)
Lemma reachable_identity (n : Z) (ds : list Direction) (i : nat)
      (seg : SnakeBodyPart) :
  snake_body (run_moves ds (new_Snake n)) !! i = Some seg ->
  ID seg = Z.of_nat i /\ (is_head seg = true <-> i = O).
Proof.
  assert (Hid : map ID (snake_body (run_moves ds (new_Snake n)))
                = map ID (initial_body n)).
  { rewrite map_run_moves by reflexivity. rewrite new_Snake_eq. reflexivity. }
  assert (Hhd : map is_head (snake_body (run_moves ds (new_Snake n)))
                = map is_head (initial_body n)).
  { rewrite map_run_moves by reflexivity. rewrite new_Snake_eq. reflexivity. }
  intros Hseg. pose proof (lookup_lt_Some _ _ _ Hseg) as Hi.
  rewrite length_run_moves, new_Snake_eq in Hi. cbn [snake_body] in Hi.
  rewrite length_initial_body in Hi.
  destruct i as [| k].
  - assert (H0 : initial_body n !! O = Some (mkSnakeBodyPart 0 0 0 true))
      by reflexivity.
    rewrite (lookup_of_map ID _ _ _ _ _ Hid Hseg H0).
    rewrite (lookup_of_map is_head _ _ _ _ _ Hhd Hseg H0).
    split; [reflexivity | split; reflexivity].
  - assert (Hk : initial_body n !! S k
                 = Some (mkSnakeBodyPart (Z.of_nat (S k)) 0 (- Z.of_nat (S k)) false))
      by (apply initial_body_lookup_S; lia).
    rewrite (lookup_of_map ID _ _ _ _ _ Hid Hseg Hk).
    rewrite (lookup_of_map is_head _ _ _ _ _ Hhd Hseg Hk).
    split; [reflexivity | split; discriminate].
Qed.

(** X1. The head stays the head. On a chain built by the constructor,
    whatever moves it has made, [get_head] returns, without changing the
    snake, a segment with [ID] 0 and [is_head] true; the segment at any
    index [i] has [ID] [i], and it is flagged as head only at index 0. *)
Theorem head_identity_invariant (n : Z) (ds : list Direction) :
  (exists h,
      get_head (run_moves ds (new_Snake n)) = (Ok h, run_moves ds (new_Snake n)) /\
      ID h = 0 /\ is_head h = true) /\
  (forall (i : nat) (seg : SnakeBodyPart),
      snake_body (run_moves ds (new_Snake n)) !! i = Some seg ->
      ID seg = Z.of_nat i /\ (is_head seg = true <-> i = O)).
Proof.
  split; [| apply reachable_identity].
  destruct (snake_body (run_moves ds (new_Snake n))) as [| h t] eqn:Hb;
    [exfalso; exact (reachable_nonempty n ds Hb) |].
  assert (Hh : snake_body (run_moves ds (new_Snake n)) !! O = Some h)
    by (rewrite Hb; reflexivity).
  exists h. split; [apply get_head_run, Hh |].
  destruct (reachable_identity n ds O h Hh) as [Hid0 Hhd0].
  split; [exact Hid0 | apply Hhd0; reflexivity].
Qed.

(** ** Where the head and the segments are after a sequence of moves *)

Lemma run_moves_cons (d : Direction) (ds : list Direction) (s : Snake) :
  run_moves (d :: ds) s = run_moves ds (snd (move d s)).
Proof. reflexivity. Qed.

(** X2. The head ends where the net count of the moves puts it: rights minus
    lefts along x, ups minus downs along y, whatever their order. There is
    no boundary: no move is refused or clipped. *)
Theorem head_position_after_moves (ds : list Direction) (s : Snake)
        (h : SnakeBodyPart) :
  snake_body s !! O = Some h ->
  exists h',
    snake_body (run_moves ds s) !! O = Some h' /\
    xpos h' = xpos h + count_dir Right ds - count_dir Left ds /\
    ypos h' = ypos h + count_dir Up ds - count_dir Down ds.
Proof.
  revert s h. induction ds as [| d ds IH]; intros s h Hh.
  - exists h. cbn [run_moves fold_left count_dir]. split; [exact Hh |]. lia.
  - rewrite run_moves_cons.
    destruct (IH _ _ (head_after_move d s h Hh)) as (h' & Hh' & Hx & Hy).
    exists h'. split; [exact Hh' |]. rewrite Hx, Hy.
    destruct d; cbn [count_dir translate xpos ypos unit_vector fst snd]; lia.
Qed.

Lemma head_position_after_moves_witness :
  exists h',
    snake_body (run_moves [Right; Up; Right; Down; Left] (new_Snake 4)) !! O
    = Some h' /\
    xpos h' = xpos (mkSnakeBodyPart 0 0 0 true)
              + count_dir Right [Right; Up; Right; Down; Left]
              - count_dir Left [Right; Up; Right; Down; Left] /\
    ypos h' = ypos (mkSnakeBodyPart 0 0 0 true)
              + count_dir Up [Right; Up; Right; Down; Left]
              - count_dir Down [Right; Up; Right; Down; Left].
Proof.
  apply (head_position_after_moves [Right; Up; Right; Down; Left] (new_Snake 4)
                                   (mkSnakeBodyPart 0 0 0 true)).
  reflexivity.
Defined.

(** X3. After [k] moves the segment at index [i >= k] is on the position that
    the segment at index [i - k] had before them; with [k = i], segment
    [i] is where the head was [i] moves earlier. *)
Theorem segment_trails_by_moves (ds : list Direction) (s : Snake) (i : nat)
        (p : SnakeBodyPart) :
  (length ds <= i < length (snake_body s))%nat ->
  snake_body s !! (i - length ds)%nat = Some p ->
  exists seg,
    snake_body (run_moves ds s) !! i = Some seg /\
    position seg = position p.
Proof.
  revert i p. induction ds as [| d ds IH] using rev_ind; intros i p Hi Hp.
  - cbn [length] in Hp. rewrite Nat.sub_0_r in Hp. exists p. split; [exact Hp | reflexivity].
  - rewrite length_app in Hi, Hp. cbn [length] in Hi, Hp.
    destruct i as [| j]; [lia |].
    replace (S j - (length ds + 1))%nat with (j - length ds)%nat in Hp by lia.
    destruct (IH j p) as (pj & Hpj & Hpos); [lia | exact Hp |].
    destruct (lookup_lt_is_Some_2 (snake_body (run_moves ds s)) (S j))
      as [sj Hsj]; [rewrite length_run_moves; lia |].
    exists (follow pj sj). rewrite run_moves_snoc. split.
    + apply trailing_after_move; assumption.
    + rewrite <- Hpos. reflexivity.
Qed.

Lemma segment_trails_by_moves_witness :
  exists seg,
    snake_body (run_moves [Up; Left] (run_moves [Right; Right] (new_Snake 5)))
      !! 2%nat = Some seg /\
    position seg = position (mkSnakeBodyPart 0 2 0 true).
Proof.
  apply (segment_trails_by_moves [Up; Left]
           (run_moves [Right; Right] (new_Snake 5)) 2
           (mkSnakeBodyPart 0 2 0 true)).
  - vm_compute. lia.
  - reflexivity.
Defined.

(** X4. The chain never breaks: in a chain built by the constructor, whatever
    moves it has made, two consecutive segments are exactly one unit
    apart along one axis. *)
Theorem chain_stays_connected (n : Z) (ds : list Direction) (k : nat)
        (p q : SnakeBodyPart) :
  snake_body (run_moves ds (new_Snake n)) !! k = Some p ->
  snake_body (run_moves ds (new_Snake n)) !! S k = Some q ->
  Z.abs (xpos p - xpos q) + Z.abs (ypos p - ypos q) = 1.
Proof.
  intros Hp Hq. apply Z.eqb_eq.
  exact (adjacent_reachable n ds k p q Hp Hq).
Qed.

Lemma chain_stays_connected_witness :
  Z.abs (xpos (mkSnakeBodyPart 1 1 0 false) - xpos (mkSnakeBodyPart 2 0 0 false))
  + Z.abs (ypos (mkSnakeBodyPart 1 1 0 false) - ypos (mkSnakeBodyPart 2 0 0 false))
  = 1.
Proof.
  apply (chain_stays_connected 3 [Right; Up] 1
           (mkSnakeBodyPart 1 1 0 false) (mkSnakeBodyPart 2 0 0 false));
    reflexivity.
Defined.

(** ** [move_combo]: batches and plotting failures *)

(** X5. Applying a sequence in two batches is applying it in one: the second
    batch starts from the state the first one left, and is not started at
    all when the first one raised. This holds for every state, every
    token list and every behaviour of the plot hook. *)
Theorem move_combo_batches (plot : Snake -> option exn) (plot_moves : bool)
        (xs ys : list string) (s : Snake) :
  move_combo plot (xs ++ ys) plot_moves s
  = match move_combo plot xs plot_moves s with
    | (Ok _, s') => move_combo plot ys plot_moves s'
    | (Raise e, s') => (Raise e, s')
    end.
Proof.
  unfold move_combo. revert s.
  induction xs as [| x xs IH]; intros s; [reflexivity |].
  cbn [app for_each]. unfold bind.
  destruct (move_combo_step plot plot_moves x s) as [[[] | e] s'];
    [apply IH | reflexivity].
Qed.

Lemma move_combo_step_plotted (plot : Snake -> option exn) (d : Direction)
      (s : Snake) :
  snake_body s <> [] ->
  move_combo_step plot true (token d) s
  = match plot (snd (move d s)) with
    | None => (Ok tt, snd (move d s))
    | Some e => (Raise e, snd (move d s))
    end.
Proof.
  intros Hne. rewrite move_combo_step_token. unfold bind.
  rewrite move_run by exact Hne. reflexivity.
Qed.

Lemma move_keeps_head (d : Direction) (s : Snake) :
  snake_body s <> [] -> snake_body (snd (move d s)) <> [].
Proof.
  intros Hne Hnil. apply Hne.
  apply (f_equal length) in Hnil. rewrite length_after_move in Hnil.
  destruct (snake_body s); [reflexivity | discriminate].
Qed.

(** X6. A plot that fails does not undo the move it was drawing. With
    plotting on, on a chain that has a head, if the plots after the moves
    [ds] all return and the plot after the next move [d] raises [e], then
    [move_combo] raises [e], the snake is in the state after [d] (with
    [num_moves] counting it), and no later token is looked at. *)
Theorem move_combo_plot_failure (plot : Snake -> option exn)
        (ds : list Direction) (d : Direction) (rest : list string)
        (s : Snake) (e : exn) :
  snake_body s <> [] ->
  (forall k : nat, (1 <= k <= length ds)%nat ->
                   plot (run_moves (take k ds) s) = None) ->
  plot (run_moves (ds ++ [d]) s) = Some e ->
  move_combo plot (map token (ds ++ [d]) ++ rest) true s
  = (Raise e, run_moves (ds ++ [d]) s) /\
  num_moves (run_moves (ds ++ [d]) s) = num_moves s + Z.of_nat (length ds) + 1.
Proof.
  intros Hne Hok Hfail. split.
  - revert s Hne Hok Hfail. induction ds as [| a ds IH]; intros s Hne Hok Hfail.
    + cbn [app map]. unfold move_combo. cbn [for_each]. unfold bind.
      rewrite move_combo_step_plotted by exact Hne.
      cbn [app] in Hfail.
      change (run_moves [d] s) with (snd (move d s)) in Hfail.
      rewrite Hfail. reflexivity.
    + cbn [app map]. unfold move_combo. cbn [for_each]. unfold bind.
      rewrite move_combo_step_plotted by exact Hne.
      assert (H1 : plot (snd (move a s)) = None)
        by (apply (Hok 1%nat); cbn [length]; lia).
      rewrite H1, run_moves_cons. apply IH.
      * apply move_keeps_head, Hne.
      * intros k Hk. apply (Hok (S k)). cbn [length]. lia.
      * exact Hfail.
  - rewrite num_moves_run_moves, length_app. cbn [length]. lia.
Qed.

Lemma move_combo_plot_failure_witness :
  move_combo (fun st => if 2 <=? num_moves st then Some IndexError else None)
             (map token ([Right] ++ [Up]) ++ ["left"%string]) true (new_Snake 3)
  = (Raise IndexError, run_moves ([Right] ++ [Up]) (new_Snake 3)) /\
  num_moves (run_moves ([Right] ++ [Up]) (new_Snake 3))
  = num_moves (new_Snake 3) + Z.of_nat (length [Right]) + 1.
Proof.
  apply (move_combo_plot_failure
           (fun st => if 2 <=? num_moves st then Some IndexError else None)
           [Right] Up ["left"%string] (new_Snake 3) IndexError).
  - vm_compute. discriminate.
  - intros k Hk. cbn [length] in Hk. replace k with 1%nat by lia. reflexivity.
  - reflexivity.
Defined.

(** ** [convert_moves_to_string] *)

Lemma convert_loop_prefix (ds : list Direction) (done : list pyval)
      (tail : list Z) (fill : list pyval) :
  convert_loop
    (imap (fun i x => (Z.of_nat (length done + i), x)) (map code ds ++ tail))
    (done ++ replicate (length ds) (PyInt 0) ++ fill)
  = convert_loop
      (imap (fun i x => (Z.of_nat (length done + length ds + i), x)) tail)
      ((done ++ map (fun d => PyStr (token d)) ds) ++ fill).
Proof.
  revert done. induction ds as [| d ds IH]; intros done.
  - cbn [map app length replicate]. rewrite app_nil_r.
    f_equal. apply imap_ext. intros i x _. do 2 f_equal. lia.
  - cbn [map app length replicate imap convert_loop].
    assert (Hset : forall t : string,
               list_setitem (done ++ PyInt 0 :: replicate (length ds) (PyInt 0) ++ fill)
                            (Z.of_nat (length done + 0)) (PyStr t)
               = Ok ((done ++ [PyStr t]) ++ replicate (length ds) (PyInt 0) ++ fill)).
    { intros t. unfold list_setitem.
      rewrite resolve_index_nat by (rewrite length_app; cbn [length]; lia).
      rewrite insert_app_r. rewrite <- app_assoc. reflexivity. }
    assert (Hnext : forall t : string,
               t = token d ->
               convert_loop
                 (imap ((fun i x => (Z.of_nat (length done + i), x)) ∘ S)
                       (map code ds ++ tail))
                 ((done ++ [PyStr t]) ++ replicate (length ds) (PyInt 0) ++ fill)
               = convert_loop
                   (imap (fun i x => (Z.of_nat (length done + S (length ds) + i), x)) tail)
                   ((done ++ PyStr (token d) :: map (fun d0 => PyStr (token d0)) ds)
                      ++ fill)).
    { intros t ->.
      rewrite (imap_ext _ (fun i x => (Z.of_nat (length (done ++ [PyStr (token d)]) + i), x))
                        (map code ds ++ tail)).
      - rewrite IH. f_equal.
        + apply imap_ext. intros i x _. rewrite length_app. cbn [length].
          do 2 f_equal. lia.
        + rewrite <- (app_assoc done). reflexivity.
      - intros i x _. unfold compose. rewrite length_app. cbn [length].
        do 2 f_equal. lia. }
    destruct d; cbn [code Z.eqb Pos.eqb]; rewrite Hset; apply Hnext; reflexivity.
Qed.

Lemma enumerate_from_0 {A} (l : list A) :
  enumerate l = imap (fun i x => (Z.of_nat (length (@nil pyval) + i), x)) l.
Proof. reflexivity. Qed.

Lemma convert_codes (ds : list Direction) :
  convert_moves_to_string (map code ds)
  = Ok (map (fun d => PyStr (token d)) ds).
Proof.
  unfold convert_moves_to_string. rewrite enumerate_from_0, length_map.
  pose proof (convert_loop_prefix ds [] [] []) as H.
  rewrite !app_nil_r in H. cbn [app] in H. exact H.
Qed.

Lemma codes_in_range (moves : list Z) :
  Forall (fun m => 0 <= m <= 3) moves -> exists ds, moves = map code ds.
Proof.
  induction 1 as [| m moves Hm _ [ds ->]]; [exists []; reflexivity |].
  assert (Hc : m = 0 \/ m = 1 \/ m = 2 \/ m = 3) by lia.
  destruct Hc as [-> | [-> | [-> | ->]]];
    [exists (Right :: ds) | exists (Left :: ds) | exists (Up :: ds)
     | exists (Down :: ds)]; reflexivity.
Qed.

Lemma lookup_code_token (ds : list Direction) (i : nat) (m : Z) :
  map code ds !! i = Some m ->
  map (fun d => PyStr (token d)) ds !! i
  = Some (PyStr (if m =? 0 then "right" else if m =? 1 then "left"
                 else if m =? 2 then "up" else "down")).
Proof.
  rewrite !list_lookup_map. destruct (ds !! i) as [d |]; [| discriminate].
  intros H. injection H as <-. destruct d; reflexivity.
Qed.

(** X7. Codes to tokens. Every list of integers that are all 0, 1, 2 or
    3 is converted without error to a list of the same length, whose
    element at each index is the token of the integer at that index
    (0 right, 1 left, 2 up, 3 down); no placeholder 0 of the initial
    list is left in the result. *)
Theorem convert_moves_to_string_valid (moves : list Z) :
  Forall (fun m => 0 <= m <= 3) moves ->
  exists strs,
    convert_moves_to_string moves = Ok strs /\
    length strs = length moves /\
    forall (i : nat) (m : Z),
      moves !! i = Some m ->
      strs !! i
      = Some (PyStr (if m =? 0 then "right" else if m =? 1 then "left"
                     else if m =? 2 then "up" else "down")).
Proof.
  intros Hrange. destruct (codes_in_range moves Hrange) as [ds ->].
  exists (map (fun d => PyStr (token d)) ds).
  split; [apply convert_codes |]. split; [rewrite !length_map; reflexivity |].
  intros i m. apply lookup_code_token.
Qed.

Lemma convert_moves_to_string_valid_witness :
  exists strs,
    convert_moves_to_string [3; 0; 0; 2; 1] = Ok strs /\
    length strs = length [3; 0; 0; 2; 1] /\
    forall (i : nat) (m : Z),
      [3; 0; 0; 2; 1] !! i = Some m ->
      strs !! i
      = Some (PyStr (if m =? 0 then "right" else if m =? 1 then "left"
                     else if m =? 2 then "up" else "down")).
Proof.
  apply (convert_moves_to_string_valid [3; 0; 0; 2; 1]).
  repeat constructor; lia.
Defined.



Lemma token_of_converted (ds : list Direction) :
  map token_of_pyval (map (fun d => PyStr (token d)) ds) = map token ds.
Proof. rewrite map_map. reflexivity. Qed.

(** X9. Codes, tokens and moves agree. On a chain that has a head, without
    plotting, [move_combo] applied to the conversion of the codes of [ds]
    returns normally and has made exactly the moves [ds]: code 0 moves
    right, 1 left, 2 up and 3 down. *)
Theorem convert_then_move_combo (plot : Snake -> option exn)
        (ds : list Direction) (s : Snake) :
  snake_body s <> [] ->
  exists strs,
    convert_moves_to_string (map code ds) = Ok strs /\
    move_combo plot (map token_of_pyval strs) false s = (Ok tt, run_moves ds s).
Proof.
  intros Hne. exists (map (fun d => PyStr (token d)) ds).
  split; [apply convert_codes |].
  rewrite token_of_converted. apply move_combo_valid; [discriminate | exact Hne].
Qed.

Lemma convert_then_move_combo_witness :
  exists strs,
    convert_moves_to_string (map code [Down; Right; Right]) = Ok strs /\
    move_combo (fun _ => Some IndexError) (map token_of_pyval strs) false
               (new_Snake 2)
    = (Ok tt, run_moves [Down; Right; Right] (new_Snake 2)).
Proof.
  apply (convert_then_move_combo (fun _ => Some IndexError)
                                 [Down; Right; Right] (new_Snake 2)).
  vm_compute. discriminate.
Defined.

(** ** The grid of [plot_snake_position] *)

Lemma in_gridb_spec (p : SnakeBodyPart) : in_gridb p = true <-> in_grid p.
Proof.
  unfold in_gridb, in_grid. rewrite !andb_true_iff, !Z.leb_le. tauto.
Qed.

Lemma in_grid_dec (l : list SnakeBodyPart) :
  Forall in_grid l \/ Exists (fun p => ~ in_grid p) l.
Proof.
  induction l as [| p l [IH | IH]].
  - left. constructor.
  - destruct (in_gridb p) eqn:Hp.
    + left. constructor; [apply in_gridb_spec, Hp | exact IH].
    + right. constructor. intros Hin. apply in_gridb_spec in Hin. congruence.
  - right. apply Exists_cons_tl, IH.
Qed.

Lemma resolve_index_grid (c : Z) :
  -75 <= c <= 24 -> resolve_index 50 (c + 25) = Some (grid_index c).
Proof.
  intros Hc. unfold resolve_index, grid_index.
  destruct (Z.ltb_spec (c + 25) 0), (Z.ltb_spec c (-25)); try lia.
  - destruct (Z.leb_spec 0 (c + 25 + Z.of_nat 50)); [| lia].
    destruct (Z.ltb_spec (c + 25 + Z.of_nat 50) (Z.of_nat 50)); [| lia].
    cbn [andb]. f_equal. lia.
  - destruct (Z.leb_spec 0 (c + 25)); [| lia].
    destruct (Z.ltb_spec (c + 25) (Z.of_nat 50)); [| lia].
    reflexivity.
Qed.

Lemma resolve_index_off_grid (c : Z) :
  ~ -75 <= c <= 24 -> resolve_index 50 (c + 25) = None.
Proof.
  intros Hc. unfold resolve_index.
  destruct (Z.ltb_spec (c + 25) 0).
  - destruct (Z.leb_spec 0 (c + 25 + Z.of_nat 50)); [lia | reflexivity].
  - destruct (Z.leb_spec 0 (c + 25)); [| lia].
    destruct (Z.ltb_spec (c + 25) (Z.of_nat 50)); [lia | reflexivity].
Qed.

Lemma grid_index_lt (c : Z) : -75 <= c <= 24 -> (grid_index c < 50)%nat.
Proof.
  intros Hc. unfold grid_index. destruct (Z.ltb_spec c (-25)); lia.
Qed.

Lemma grid_shape_zeros : grid_shape (np_zeros GRID_SIZE GRID_SIZE).
Proof.
  split; [reflexivity |]. apply Forall_forall. intros row Hrow.
  apply elem_of_replicate in Hrow as [-> _]. reflexivity.
Qed.

Lemma cell_zeros (r c : nat) :
  cell (np_zeros GRID_SIZE GRID_SIZE) r c
  = if (r <? 50)%nat && (c <? 50)%nat then Some 0 else None.
Proof.
  unfold cell, np_zeros.
  change (Z.to_nat GRID_SIZE) with 50%nat.
  destruct (Nat.ltb_spec r 50) as [Hr | Hr].
  - rewrite (lookup_replicate_2 50 (replicate 50 0) r Hr).
    destruct (Nat.ltb_spec c 50) as [Hc | Hc].
    + rewrite (lookup_replicate_2 50 0 c Hc). reflexivity.
    + apply lookup_ge_None_2. rewrite length_replicate. exact Hc.
  - rewrite (lookup_ge_None_2 (replicate 50 (replicate 50 0)) r);
      [reflexivity | rewrite length_replicate; exact Hr].
Qed.

(** A store inside the grid: the cell is written, the others are kept. *)
Lemma grid_setitem_in (g : list (list Z)) (x y v : Z) :
  grid_shape g -> -75 <= x <= 24 -> -75 <= y <= 24 ->
  exists g',
    grid_setitem g (x + 25) (y + 25) v = Ok g' /\
    grid_shape g' /\
    forall r c,
      cell g' r c
      = if Nat.eqb (grid_index x) r && Nat.eqb (grid_index y) c
        then Some v else cell g r c.
Proof.
  intros [Hlen Hrows] Hx Hy.
  pose proof (grid_index_lt x Hx) as Hr0. pose proof (grid_index_lt y Hy) as Hc0.
  destruct (lookup_lt_is_Some_2 g (grid_index x)) as [row Hrow]; [lia |].
  assert (Hrowlen : length row = 50%nat).
  { rewrite Forall_lookup in Hrows. exact (Hrows _ _ Hrow). }
  exists (<[grid_index x := <[grid_index y := v]> row]> g).
  split; [| split].
  - unfold grid_setitem. rewrite Hlen, resolve_index_grid by exact Hx.
    rewrite Hrow, Hrowlen, resolve_index_grid by exact Hy. reflexivity.
  - split; [rewrite length_insert; exact Hlen |].
    apply Forall_insert; [exact Hrows | rewrite length_insert; exact Hrowlen].
  - intros r c. unfold cell.
    destruct (Nat.eqb_spec (grid_index x) r) as [<- | Hr].
    + rewrite list_lookup_insert_eq by lia. rewrite Hrow.
      destruct (Nat.eqb_spec (grid_index y) c) as [<- | Hc]; cbn [andb].
      * apply list_lookup_insert_eq. lia.
      * apply list_lookup_insert_ne. exact Hc.
    + cbn [andb]. rewrite list_lookup_insert_ne by exact Hr. reflexivity.
Qed.

(** A store off the grid raises. *)
Lemma grid_setitem_off (g : list (list Z)) (x y v : Z) :
  grid_shape g -> ~ (-75 <= x <= 24 /\ -75 <= y <= 24) ->
  grid_setitem g (x + 25) (y + 25) v = Raise IndexError.
Proof.
  intros [Hlen Hrows] Hoff. unfold grid_setitem. rewrite Hlen.
  destruct (resolve_index 50 (x + 25)) as [r |] eqn:Hr; [| reflexivity].
  destruct (g !! r) as [row |] eqn:Hrow; [| reflexivity].
  assert (Hrowlen : length row = 50%nat).
  { rewrite Forall_lookup in Hrows. exact (Hrows _ _ Hrow). }
  rewrite Hrowlen.
  assert (Hx : -75 <= x <= 24).
  { destruct (Z_le_dec (-75) x) as [H1 | H1];
      [destruct (Z_le_dec x 24) as [H2 | H2]; [lia |] |];
      rewrite resolve_index_off_grid in Hr by lia; discriminate Hr. }
  rewrite resolve_index_off_grid by lia. reflexivity.
Qed.

Lemma find_app {A} (f : A -> bool) (l1 l2 : list A) :
  List.find f (l1 ++ l2)
  = match List.find f l1 with
    | Some x => Some x
    | None => List.find f l2
    end.
Proof.
  induction l1 as [| a l1 IH]; [reflexivity |].
  cbn [app List.find]. destruct (f a); [reflexivity | exact IH].
Qed.

Lemma fill_plot_grid_in (parts : list SnakeBodyPart) (g : list (list Z)) :
  grid_shape g -> Forall in_grid parts ->
  exists g',
    fill_plot_grid parts g = Ok g' /\
    grid_shape g' /\
    forall r c,
      cell g' r c
      = match List.find (drawn_at r c) (rev parts) with
        | Some p => Some (marker p)
        | None => cell g r c
        end.
Proof.
  intros Hg Hin. revert g Hg.
  induction Hin as [| p parts [Hx Hy] _ IH]; intros g Hg.
  - exists g. split; [reflexivity |]. split; [exact Hg |]. reflexivity.
  - destruct (grid_setitem_in g (xpos p) (ypos p) (marker p) Hg Hx Hy)
      as (g1 & Hset & Hg1 & Hcell1).
    destruct (IH g1 Hg1) as (g' & Hfill & Hg' & Hcell).
    exists g'. split; [| split; [exact Hg' |]].
    + cbn [fill_plot_grid]. change (GRID_SIZE / 2) with 25.
      unfold marker in Hset. destruct (is_head p); rewrite Hset; exact Hfill.
    + intros r c. rewrite Hcell. cbn [rev]. rewrite find_app.
      destruct (List.find (drawn_at r c) (rev parts)); [reflexivity |].
      rewrite Hcell1. cbn [List.find]. unfold drawn_at.
      destruct (Nat.eqb (grid_index (xpos p)) r && Nat.eqb (grid_index (ypos p)) c);
        reflexivity.
Qed.

Lemma fill_plot_grid_off (parts : list SnakeBodyPart) (g : list (list Z)) :
  grid_shape g -> Exists (fun p => ~ in_grid p) parts ->
  fill_plot_grid parts g = Raise IndexError.
Proof.
  intros Hg Hex. revert g Hg.
  induction parts as [| p parts IH]; intros g Hg; [inversion Hex |].
  cbn [fill_plot_grid]. change (GRID_SIZE / 2) with 25.
  destruct (in_gridb p) eqn:Hp.
  - apply in_gridb_spec in Hp as Hin. destruct Hin as [Hx Hy].
    destruct (grid_setitem_in g (xpos p) (ypos p) (marker p) Hg Hx Hy)
      as (g1 & Hset & Hg1 & _).
    unfold marker in Hset. 
    assert (Hrest : Exists (fun q => ~ in_grid q) parts).
    { inversion Hex as [? ? Hbad | ? ? Hrest']; subst; [| exact Hrest'].
      exfalso. apply Hbad. split; assumption. }
    destruct (is_head p); rewrite Hset; apply IH; assumption.
  - assert (Hoff : ~ (-75 <= xpos p <= 24 /\ -75 <= ypos p <= 24)).
    { intros Hin. apply in_gridb_spec in Hin. congruence. }
    destruct (is_head p); rewrite grid_setitem_off by assumption; reflexivity.
Qed.

Lemma Forall_in_grid_rev (l : list SnakeBodyPart) :
  Forall in_grid (rev l) <-> Forall in_grid l.
Proof.
  rewrite !Forall_forall. split; intros H p Hp; apply H;
    apply list_elem_of_In; apply list_elem_of_In in Hp;
    [apply in_rev in Hp | apply in_rev]; exact Hp.
Qed.

Lemma Exists_off_grid_rev (l : list SnakeBodyPart) :
  Exists (fun p => ~ in_grid p) l -> Exists (fun p => ~ in_grid p) (rev l).
Proof.
  rewrite !Exists_exists. intros (p & Hp & Hoff). exists p. split; [| exact Hoff].
  apply list_elem_of_In. apply list_elem_of_In in Hp. apply in_rev in Hp. exact Hp.
Qed.

Lemma Forall_not_Exists_grid (l : list SnakeBodyPart) :
  Forall in_grid l -> Exists (fun p => ~ in_grid p) l -> False.
Proof.
  intros Hall Hex. apply Exists_exists in Hex as (p & Hp & Hoff).
  rewrite Forall_forall in Hall. exact (Hoff (Hall p Hp)).
Qed.

Lemma draw_plot_grid_cases (s : Snake) :
  ((exists g, draw_plot_grid s = Ok g) <-> Forall in_grid (snake_body s)) /\
  (draw_plot_grid s = Raise IndexError
   <-> Exists (fun p => ~ in_grid p) (snake_body s)).
Proof.
  unfold draw_plot_grid.
  destruct (in_grid_dec (snake_body s)) as [Hall | Hex].
  - destruct (fill_plot_grid_in (rev (snake_body s)) _ grid_shape_zeros)
      as (g & Hfill & _); [apply Forall_in_grid_rev, Hall |].
    rewrite Hfill. split; split.
    + intros _. exact Hall.
    + intros _. exists g. reflexivity.
    + discriminate.
    + intros Hex. exfalso. exact (Forall_not_Exists_grid _ Hall Hex).
  - rewrite (fill_plot_grid_off (rev (snake_body s)) _ grid_shape_zeros)
      by (apply Exists_off_grid_rev, Hex).
    split; split.
    + intros [g Hg]. discriminate Hg.
    + intros Hall. exfalso. exact (Forall_not_Exists_grid _ Hall Hex).
    + intros _. exact Hex.
    + reflexivity.
Qed.


Lemma forallb_in_grid (l : list SnakeBodyPart) :
  forallb in_gridb l = true -> Forall in_grid l.
Proof.
  intros Hall. apply Forall_forall. intros p Hp. apply in_gridb_spec.
  rewrite forallb_forall in Hall. apply Hall, list_elem_of_In, Hp.
Qed.

Lemma draw_plot_grid_lookup (s : Snake) :
  Forall in_grid (snake_body s) ->
  exists g,
    draw_plot_grid s = Ok g /\
    forall r c : nat,
      cell g r c
      = match List.find (drawn_at r c) (snake_body s) with
        | Some p => Some (marker p)
        | None => if (r <? 50)%nat && (c <? 50)%nat then Some 0 else None
        end.
Proof.
  intros Hall. apply Forall_in_grid_rev in Hall.
  destruct (fill_plot_grid_in _ _ grid_shape_zeros Hall) as (g & Hfill & _ & Hcell).
  exists g. split; [exact Hfill |]. intros r c.
  rewrite Hcell, rev_involutive, cell_zeros. reflexivity.
Qed.

(** X11. What is drawn. When every segment is on the grid, the cell at row
    [r] and column [c] holds the mark of the segment of lowest index that
    is drawn there (2 for a part flagged as head, 1 otherwise), and 0 when
    no segment is drawn there. A coordinate [v] is drawn at index
    [v + 25], and at [v + 75], wrapped to the far side, when [v < -25]. *)
Theorem draw_plot_grid_cells (s : Snake) :
  forallb in_gridb (snake_body s) = true ->
  exists g,
    draw_plot_grid s = Ok g /\
    forall r c : nat,
      (r < 50)%nat -> (c < 50)%nat ->
      cell g r c
      = Some (match List.find (drawn_at r c) (snake_body s) with
              | Some p => marker p
              | None => 0
              end).
Proof.
  intros Hall.
  destruct (draw_plot_grid_lookup s (forallb_in_grid _ Hall)) as (g & Hdraw & Hcell).
  exists g. split; [exact Hdraw |]. intros r c Hr Hc. rewrite Hcell.
  destruct (Nat.ltb_spec r 50); [| lia]. destruct (Nat.ltb_spec c 50); [| lia].
  destruct (List.find (drawn_at r c) (snake_body s)); reflexivity.
Qed.

Lemma draw_plot_grid_cells_witness :
  exists g,
    draw_plot_grid (run_moves [Left; Left] (new_Snake 30)) = Ok g /\
    forall r c : nat,
      (r < 50)%nat -> (c < 50)%nat ->
      cell g r c
      = Some (match List.find (drawn_at r c)
                              (snake_body (run_moves [Left; Left] (new_Snake 30)))
              with
              | Some p => marker p
              | None => 0
              end).
Proof.
  apply (draw_plot_grid_cells (run_moves [Left; Left] (new_Snake 30))).
  vm_compute. reflexivity.
Defined.

(** X12. The head is drawn on top. For a chain built by the constructor, after
    any moves that leave it on the grid, exactly one cell of the drawing
    holds 2: the cell of the head, also when body segments lie on it. *)
Theorem draw_plot_grid_head (n : Z) (ds : list Direction) :
  forallb in_gridb (snake_body (run_moves ds (new_Snake n))) = true ->
  exists g h,
    draw_plot_grid (run_moves ds (new_Snake n)) = Ok g /\
    snake_body (run_moves ds (new_Snake n)) !! O = Some h /\
    forall r c : nat,
      cell g r c = Some 2
      <-> r = grid_index (xpos h) /\ c = grid_index (ypos h).
Proof.
  intros Hall. apply forallb_in_grid in Hall.
  destruct (draw_plot_grid_lookup _ Hall) as (g & Hdraw & Hcell).
  pose proof (reachable_identity n ds) as Hids.
  destruct (snake_body (run_moves ds (new_Snake n))) as [| h t] eqn:Hb;
    [exfalso; exact (reachable_nonempty n ds Hb) |].
  exists g, h. split; [exact Hdraw |]. split; [reflexivity |].
  assert (Hhd : is_head h = true) by (apply (Hids O h); reflexivity).
  intros r c. rewrite Hcell. split.
  - intros H2.
    destruct (List.find (drawn_at r c) (h :: t)) as [p |] eqn:Hfind.
    + apply find_some in Hfind as [Hp Hat].
      apply list_elem_of_In, list_elem_of_lookup in Hp as [i Hi].
      assert (Hp2 : is_head p = true).
      { unfold marker in H2. destruct (is_head p); [reflexivity | discriminate]. }
      apply (Hids i p Hi) in Hp2. subst i. injection Hi as <-.
      unfold drawn_at in Hat. apply andb_true_iff in Hat as [Hx Hy].
      apply Nat.eqb_eq in Hx, Hy. split; congruence.
    + destruct ((r <? 50)%nat && (c <? 50)%nat); discriminate H2.
  - intros [-> ->]. cbn [List.find]. unfold drawn_at.
    rewrite !Nat.eqb_refl. cbn [andb]. unfold marker. rewrite Hhd. reflexivity.
Qed.

Lemma draw_plot_grid_head_witness :
  exists g h,
    draw_plot_grid (run_moves [Right; Left] (new_Snake 3)) = Ok g /\
    snake_body (run_moves [Right; Left] (new_Snake 3)) !! O = Some h /\
    forall r c : nat,
      cell g r c = Some 2
      <-> r = grid_index (xpos h) /\ c = grid_index (ypos h).
Proof.
  apply (draw_plot_grid_head 3 [Right; Left]). vm_compute. reflexivity.
Defined.

Lemma initial_body_in_grid (n : Z) : Forall in_grid (initial_body n) <-> n <= 76.
Proof.
  rewrite Forall_lookup. split.
  - intros Hall. destruct (Z_le_gt_dec n 76) as [Hn | Hn]; [exact Hn |].
    exfalso.
    assert (H76 : initial_body n !! 76%nat
                  = Some (mkSnakeBodyPart (Z.of_nat 76) 0 (- Z.of_nat 76) false))
      by (apply initial_body_lookup_S; lia).
    destruct (Hall _ _ H76) as [_ Hy]. cbn [ypos] in Hy. lia.
  - intros Hn i p Hp. pose proof (lookup_lt_Some _ _ _ Hp) as Hi.
    rewrite length_initial_body in Hi. destruct i as [| k].
    + injection Hp as <-. unfold in_grid. cbn [xpos ypos]. lia.
    + rewrite initial_body_lookup_S in Hp by lia. injection Hp as <-.
      unfold in_grid. cbn [xpos ypos]. lia.
Qed.

(** X13. A fresh snake can be plotted if and only if its length is at most 76:
    from length 77 on, the segment at (0, -76) is off the grid and the
    drawing raises [IndexError]. *)
Theorem draw_plot_grid_fresh (n : Z) :
  ((exists g, draw_plot_grid (new_Snake n) = Ok g) <-> n <= 76) /\
  (draw_plot_grid (new_Snake n) = Raise IndexError <-> 77 <= n).
Proof.
  destruct (draw_plot_grid_cases (new_Snake n)) as [Hok Herr].
  rewrite new_Snake_eq in *. cbn [snake_body] in *.
  split; [rewrite Hok; apply initial_body_in_grid |].
  rewrite Herr. split.
  - intros Hex. destruct (Z_le_gt_dec n 76) as [Hn | Hn]; [| lia].
    exfalso. apply initial_body_in_grid in Hn.
    exact (Forall_not_Exists_grid _ Hn Hex).
  - intros Hn. destruct (in_grid_dec (initial_body n)) as [Hall | Hex];
      [| exact Hex].
    apply initial_body_in_grid in Hall. lia.
Qed.

(** ** The driver *)

Section DriverFacts.

Variable randint : nat -> Z -> Z -> Z.
Variable savefig : list (list Z) -> Z -> option exn.

Hypothesis randint_bounds : forall k : nat, 0 <= randint k 0 3 <= 3.

Lemma length_create_random_moves (n_moves : Z) :
  length (create_random_moves randint n_moves) = Z.to_nat n_moves.
Proof.
  unfold create_random_moves. rewrite length_imap, py_range_up.
  rewrite length_map, length_seq. f_equal. lia.
Qed.

Lemma create_random_moves_lookup (n_moves : Z) (k : nat) (m : Z) :
  create_random_moves randint n_moves !! k = Some m -> m = randint k 0 3.
Proof.
  unfold create_random_moves. rewrite list_lookup_imap.
  destruct (py_range 0 n_moves 1 !! k); [| discriminate].
  intros H. injection H as <-. reflexivity.
Qed.

Lemma create_random_moves_codes (n_moves : Z) :
  exists ds,
    create_random_moves randint n_moves = map code ds /\
    length ds = Z.to_nat n_moves /\
    forall (k : nat) (d : Direction), ds !! k = Some d -> code d = randint k 0 3.
Proof.
  destruct (codes_in_range (create_random_moves randint n_moves)) as [ds Hds].
  { apply Forall_lookup. intros k m Hm.
    rewrite (create_random_moves_lookup _ _ _ Hm). apply randint_bounds. }
  exists ds. split; [exact Hds |]. split.
  - rewrite <- (length_map code ds), <- Hds. apply length_create_random_moves.
  - intros k d Hd. apply (create_random_moves_lookup n_moves).
    rewrite Hds, list_lookup_map, Hd. reflexivity.
Qed.

End DriverFacts.

(** X14. Random moves always convert. As long as [random.randint(0, 3)]
    returns values between 0 and 3, [create_random_moves(n)] is a list of
    [n] codes (none for [n <= 0]), the [k]-th being the [k]-th draw, and
    [convert_moves_to_string] turns it into [n] valid tokens without
    raising. *)
Theorem create_random_moves_convert (randint : nat -> Z -> Z -> Z) (n_moves : Z) :
  (forall k : nat, 0 <= randint k 0 3 <= 3) ->
  exists ds,
    length ds = Z.to_nat n_moves /\
    (forall (k : nat) (d : Direction), ds !! k = Some d -> code d = randint k 0 3) /\
    create_random_moves randint n_moves = map code ds /\
    convert_moves_to_string (create_random_moves randint n_moves)
    = Ok (map (fun d => PyStr (token d)) ds).
Proof.
  intros Hrand.
  destruct (create_random_moves_codes randint Hrand n_moves) as (ds & Hds & Hlen & Hk).
  exists ds. split; [exact Hlen |]. split; [exact Hk |]. split; [exact Hds |].
  rewrite Hds. apply convert_codes.
Qed.

Lemma create_random_moves_convert_witness :
  exists ds,
    length ds = Z.to_nat 6 /\
    (forall (k : nat) (d : Direction),
        ds !! k = Some d -> code d = (fun k _ _ => Z.of_nat k mod 4) k 0 3) /\
    create_random_moves (fun k _ _ => Z.of_nat k mod 4) 6 = map code ds /\
    convert_moves_to_string (create_random_moves (fun k _ _ => Z.of_nat k mod 4) 6)
    = Ok (map (fun d => PyStr (token d)) ds).
Proof.
  apply (create_random_moves_convert (fun k _ _ => Z.of_nat k mod 4) 6).
  intros k. pose proof (Z.mod_pos_bound (Z.of_nat k) 4). lia.
Defined.




